(** * expodht: the DHT sensor decoder of [src/expodht/dht22.py]

    A shallow embedding of the class [Sensor]: its fields are a record, its
    methods are functions that pass the object explicitly, and the calls the
    methods make to the outside (the sleeps, the GPIO writes, the user
    callback) together with the internal hand-off to [_decode_dhtxx] are
    appended to a chronological trace.  Of [src/expodht/main.py] the
    reading closure and the loop of [main] outside dummy mode are embedded,
    over the same sensor object.

    Python integers are unbounded, so they are [Z] with no wrap-around.
    Python floats are modelled by exact rationals in lowest terms; every float
    the decoder builds is an integer divided by [10.0] or [-10.0] and is only
    compared with [110.0], [-50.0] and [135.0], comparisons on which the
    correctly rounded quotient and the exact quotient agree. *)

From Stdlib Require Import ZArith QArith Bool List Lia.
From Stdlib Require String.
Import ListNotations.

Local Open Scope Z_scope.

(** ** Module constants *)

Definition DHTAUTO : Z := 0.
Definition DHT11 : Z := 1.
Definition DHTXX : Z := 2.

Definition DHT_GOOD : Z := 0.
Definition DHT_BAD_CHECKSUM : Z := 1.
Definition DHT_BAD_DATA : Z := 2.
Definition DHT_TIMEOUT : Z := 3.

(** ** Values *)

(** A Python number as the decoder stores it: [_validate_DHT11] yields
    integers, [_validate_DHTXX] and [__init__] yield floats. *)
Inductive pynum : Type :=
| PyInt (z : Z)
| PyFloat (q : Q).

(** [float(n)] for an integer [n]. *)
Definition float (n : Z) : Q := inject_Z n.

(** Float division, kept in lowest terms so that equal floats are equal
    terms. *)
Definition fdiv (x y : Q) : Q := Qred (x / y).

(** The user callback is an opaque Python callable; only its identity and
    the arguments it is called with are recorded. *)
Inductive pyfun : Type :=
| UserFn (id : nat).

(** The tuple built by [_datum]. *)
Record Datum : Type := mkDatum {
  d_timestamp : Q;
  d_gpio : Z;
  d_status : Z;
  d_temperature : pynum;
  d_humidity : pynum
}.

(** The attributes of a [Sensor] object ([_pi] and [_cb_id] are handles of
    the pigpio library and carry no decoder state). *)
Record Sensor : Type := mkSensor {
  _gpio : Z;
  _model : Z;
  _callback : option pyfun;
  _new_data : bool;
  _in_code : bool;
  _bits : Z;
  _code : Z;
  _status : Z;
  _timestamp : Q;
  _temperature : pynum;
  _humidity : pynum;
  _last_edge_tick : Z
}.

Definition set_new_data (v : bool) (s : Sensor) : Sensor :=
  mkSensor (_gpio s) (_model s) (_callback s) v (_in_code s) (_bits s)
           (_code s) (_status s) (_timestamp s) (_temperature s)
           (_humidity s) (_last_edge_tick s).

Definition set_in_code (v : bool) (s : Sensor) : Sensor :=
  mkSensor (_gpio s) (_model s) (_callback s) (_new_data s) v (_bits s)
           (_code s) (_status s) (_timestamp s) (_temperature s)
           (_humidity s) (_last_edge_tick s).

Definition set_bits (v : Z) (s : Sensor) : Sensor :=
  mkSensor (_gpio s) (_model s) (_callback s) (_new_data s) (_in_code s) v
           (_code s) (_status s) (_timestamp s) (_temperature s)
           (_humidity s) (_last_edge_tick s).

Definition set_code (v : Z) (s : Sensor) : Sensor :=
  mkSensor (_gpio s) (_model s) (_callback s) (_new_data s) (_in_code s)
           (_bits s) v (_status s) (_timestamp s) (_temperature s)
           (_humidity s) (_last_edge_tick s).

Definition set_status (v : Z) (s : Sensor) : Sensor :=
  mkSensor (_gpio s) (_model s) (_callback s) (_new_data s) (_in_code s)
           (_bits s) (_code s) v (_timestamp s) (_temperature s)
           (_humidity s) (_last_edge_tick s).

Definition set_timestamp (v : Q) (s : Sensor) : Sensor :=
  mkSensor (_gpio s) (_model s) (_callback s) (_new_data s) (_in_code s)
           (_bits s) (_code s) (_status s) v (_temperature s)
           (_humidity s) (_last_edge_tick s).

Definition set_temperature (v : pynum) (s : Sensor) : Sensor :=
  mkSensor (_gpio s) (_model s) (_callback s) (_new_data s) (_in_code s)
           (_bits s) (_code s) (_status s) (_timestamp s) v
           (_humidity s) (_last_edge_tick s).

Definition set_humidity (v : pynum) (s : Sensor) : Sensor :=
  mkSensor (_gpio s) (_model s) (_callback s) (_new_data s) (_in_code s)
           (_bits s) (_code s) (_status s) (_timestamp s) (_temperature s)
           v (_last_edge_tick s).

Definition set_last_edge_tick (v : Z) (s : Sensor) : Sensor :=
  mkSensor (_gpio s) (_model s) (_callback s) (_new_data s) (_in_code s)
           (_bits s) (_code s) (_status s) (_timestamp s) (_temperature s)
           (_humidity s) v.

(** ** The outside world *)

(** What a method does beyond updating the object, in the order it happens. *)
Inductive Event : Type :=
| Decode (code : Z)            (* [self._decode_dhtxx()] entered with this [_code] *)
| Call (f : pyfun) (d : Datum) (* [self._callback(datum)] *)
| Sleep (seconds : Q)          (* [time.sleep(seconds)] *)
| GpioWrite (gpio level : Z)   (* [self._pi.write(gpio, level)] *)
| GpioInput (gpio : Z).        (* [self._pi.set_mode(gpio, pigpio.INPUT)] *)

Record World : Type := mkWorld {
  self : Sensor;
  trace : list Event
}.

Definition emit (e : Event) (w : World) : World :=
  mkWorld (self w) (trace w ++ [e]).

Definition update (f : Sensor -> Sensor) (w : World) : World :=
  mkWorld (f (self w)) (trace w).

(** [pigpio.tickDiff(t1, t2)] of the pigpio library: the difference of two
    readings of its 32-bit microsecond counter, across one wrap-around. *)
Definition tickDiff (t1 t2 : Z) : Z :=
  let tDiff := t2 - t1 in
  if tDiff <? 0 then tDiff + Z.shiftl 1 32 else tDiff.

(** ** [Sensor.__init__]
    [tick] is [pi.get_current_tick()] and [now] is [time.time()]. *)
Definition init (tick : Z) (now : Q) (gpio model : Z)
    (callback : option pyfun) : Sensor :=
  {| _gpio := gpio;
     _model := model;
     _callback := callback;
     _new_data := false;
     _in_code := false;
     _bits := 0;
     _code := 0;
     _status := DHT_TIMEOUT;
     _timestamp := now;
     _temperature := PyFloat 0;
     _humidity := PyFloat 0;
     _last_edge_tick := tick - 10000 |}.

(** ** [Sensor._datum] *)
Definition _datum (s : Sensor) : Datum :=
  mkDatum (_timestamp s) (_gpio s) (_status s) (_temperature s) (_humidity s).

(** ** [Sensor._validate_DHT11] *)
Definition _validate_DHT11 (b1 b2 b3 b4 : Z) : bool * pynum * pynum :=
  let t := b2 in
  let h := b4 in
  let valid :=
    if (b1 =? 0) && (b3 =? 0) && (t <=? 60) && (h >=? 9) && (h <=? 90)
    then true else false in
  (valid, PyInt t, PyInt h).

(** ** [Sensor._validate_DHTXX] *)
Definition _validate_DHTXX (b1 b2 b3 b4 : Z) : bool * pynum * pynum :=
  let div := if negb (Z.land b2 128 =? 0) then (-10 # 1)%Q else (10 # 1)%Q in
  let t := fdiv (float (Z.shiftl (Z.land b2 127) 8 + b1)) div in
  let h := fdiv (float (Z.shiftl b4 8 + b3)) (10 # 1) in
  let valid :=
    if Qle_bool h (110 # 1) && Qle_bool (-50 # 1) t && Qle_bool t (135 # 1)
    then true else false in
  (valid, PyFloat t, PyFloat h).

(** ** [Sensor._decode_dhtxx] *)
Definition _decode_dhtxx (s : Sensor) : Sensor :=
  let b0 := Z.land (_code s) 255 in
  let b1 := Z.land (Z.shiftr (_code s) 8) 255 in
  let b2 := Z.land (Z.shiftr (_code s) 16) 255 in
  let b3 := Z.land (Z.shiftr (_code s) 24) 255 in
  let b4 := Z.land (Z.shiftr (_code s) 32) 255 in
  let chksum := Z.land (b1 + b2 + b3 + b4) 255 in
  let s :=
    if chksum =? b0 then
      let '(valid, t, h) :=
        if _model s =? DHT11 then _validate_DHT11 b1 b2 b3 b4
        else if _model s =? DHTXX then _validate_DHTXX b1 b2 b3 b4
        else
          let '(valid, t, h) := _validate_DHTXX b1 b2 b3 b4 in
          if negb valid then _validate_DHT11 b1 b2 b3 b4
          else (valid, t, h) in
      if valid then
        set_status DHT_GOOD (set_humidity h (set_temperature t s))
      else set_status DHT_BAD_DATA s
    else set_status DHT_BAD_CHECKSUM s in
  set_new_data true s.

(** ** [Sensor._rising_edge]
    The pigpio callback thread calls it once per rising edge. *)
Definition _rising_edge (w : World) (gpio level tick : Z) : World :=
  let edge_len := tickDiff (_last_edge_tick (self w)) tick in
  let w := update (set_last_edge_tick tick) w in
  if edge_len >? 10000 then
    update (fun s => set_code 0 (set_bits (-2) (set_in_code true s))) w
  else if _in_code (self w) then
    let w := update (fun s => set_bits (_bits s + 1) s) w in
    let w :=
      if _bits (self w) >=? 1 then
        let w := update (fun s => set_code (Z.shiftl (_code s) 1) s) w in
        if (edge_len >=? 60) && (edge_len <=? 150) then
          if edge_len >? 100 then update (fun s => set_code (_code s + 1) s) w
          else w
        else update (set_in_code false) w
      else w in
    if _in_code (self w) then
      if _bits (self w) =? 40 then
        let w := emit (Decode (_code (self w))) w in
        let w := update _decode_dhtxx w in
        update (set_in_code false) w
      else w
    else w
  else w.

(** The edges that arrive while a method sleeps are handled, in order, before
    the sleeper resumes. *)
Definition deliver (ticks : list Z) (w : World) : World :=
  fold_left (fun w tick => _rising_edge w (_gpio (self w)) 1 tick) ticks w.

(** [time.sleep(seconds)] during which the edges [ticks] arrive. *)
Definition sleep (seconds : Q) (ticks : list Z) (w : World) : World :=
  deliver ticks (emit (Sleep seconds) w).

(** What the surroundings supply to one [read()]: the wall clock at trigger
    time, the edges arriving during the trigger pulse, and the edges arriving
    during each polling sleep. *)
Record Env : Type := mkEnv {
  clock : Q;
  trigger_edges : list Z;
  poll_edges : nat -> list Z
}.

(** ** [Sensor._trigger] *)
Definition _trigger (env : Env) (w : World) : World :=
  let w := update (set_new_data false) w in
  let w := update (set_timestamp (clock env)) w in
  let w := update (set_status DHT_TIMEOUT) w in
  let w := emit (GpioWrite (_gpio (self w)) 0) w in
  let w :=
    if negb (_model (self w) =? DHTXX)
    then sleep (18 # 1000) (trigger_edges env) w
    else sleep (1 # 1000) (trigger_edges env) w in
  emit (GpioInput (_gpio (self w))) w.

(** The loop [for i in range(5): time.sleep(0.05); if self._new_data: break],
    over the values [i] still to come. *)
Fixpoint poll (env : Env) (range : list nat) (w : World) : World :=
  match range with
  | [] => w
  | i :: range' =>
      let w := sleep (5 # 100) (poll_edges env i) w in
      if _new_data (self w) then w else poll env range' w
  end.

(** ** [Sensor.read] *)
Definition read (env : Env) (w : World) : Datum * World :=
  let w := _trigger env w in
  let w := poll env (seq 0 5) w in
  let datum := _datum (self w) in
  let w :=
    match _callback (self w) with
    | Some f => emit (Call f datum) w
    | None => w
    end in
  (datum, w).

(** ** Vocabulary of the properties *)

(** The five bytes of a frame, [b0] the low byte of the word. *)
Definition byte0 (code : Z) : Z := Z.land code 255.
Definition byte1 (code : Z) : Z := Z.land (Z.shiftr code 8) 255.
Definition byte2 (code : Z) : Z := Z.land (Z.shiftr code 16) 255.
Definition byte3 (code : Z) : Z := Z.land (Z.shiftr code 24) 255.
Definition byte4 (code : Z) : Z := Z.land (Z.shiftr code 32) 255.

Definition is_byte (b : Z) : Prop := 0 <= b < 256.

(** The 40-bit word whose bytes are [b0] (lowest) to [b4] (highest). *)
Definition frame_of_bytes (b0 b1 b2 b3 b4 : Z) : Z :=
  b0 + 2 ^ 8 * b1 + 2 ^ 16 * b2 + 2 ^ 24 * b3 + 2 ^ 32 * b4.

(** The frame's checksum byte agrees with its four data bytes. *)
Definition checksum_ok (code : Z) : Prop :=
  byte0 code = (byte1 code + byte2 code + byte3 code + byte4 code) mod 256.

(** The DHTXX reading in the words of the specification: a sign-and-magnitude
    temperature and an unsigned humidity, both in tenths. *)
Definition dhtxx_temperature (b1 b2 : Z) : Q :=
  let magnitude :=
    (inject_Z (Z.lor (Z.shiftl (Z.land b2 127) 8) b1) / (10 # 1))%Q in
  if Z.testbit b2 7 then (- magnitude)%Q else magnitude.

Definition dhtxx_humidity (b3 b4 : Z) : Q :=
  (inject_Z (Z.lor (Z.shiftl b4 8) b3) / (10 # 1))%Q.

Definition dhtxx_in_range (t h : Q) : Prop :=
  (h <= 110 # 1 /\ -50 # 1 <= t /\ t <= 135 # 1)%Q.

Definition dht11_in_range (b1 b2 b3 b4 : Z) : Prop :=
  b1 = 0 /\ b3 = 0 /\ b2 <= 60 /\ 9 <= b4 <= 90.

(** The interval the handler measures at an edge. *)
Definition interval (w : World) (tick : Z) : Z :=
  tickDiff (_last_edge_tick (self w)) tick.

(** The intervals the handler measures over a stream of edges, the first one
    from the tick [last]. *)
Fixpoint intervals (last : Z) (ticks : list Z) : list Z :=
  match ticks with
  | [] => []
  | t :: ticks' => tickDiff last t :: intervals t ticks'
  end.

(** A stream of edges whose intervals are [ivs], starting after the tick
    [last], on the 32-bit counter. *)
Fixpoint ticks_after (last : Z) (ivs : list Z) : list Z :=
  match ivs with
  | [] => []
  | i :: ivs' =>
      let t := (last + i) mod 2 ^ 32 in t :: ticks_after t ivs'
  end.

Definition valid_pulse (i : Z) : Prop := 60 <= i <= 150.

(** The bit a data pulse stands for. *)
Definition classify (i : Z) : Z := if i >? 100 then 1 else 0.

(** Bits shifted into an accumulator, the first one ending up highest. *)
Definition shift_in (acc : Z) (bits : list Z) : Z :=
  fold_left (fun a b => 2 * a + b) bits acc.

(** The big-endian concatenation of a list of bits. *)
Definition bits_value (bits : list Z) : Z := shift_in 0 bits.

(** The decoder's progress through a frame, against the intervals seen so
    far: while [_in_code] holds, the intervals end with a long gap followed by
    [_bits + 2] shorter ones, of which all but the first two are valid data
    pulses whose bits make up [_code]. *)
Definition accumulating (ivs : list Z) (s : Sensor) : Prop :=
  _in_code s = true ->
  exists hd gap rest,
    ivs = hd ++ gap :: rest /\
    gap > 10000 /\
    Forall (fun i => i <= 10000) rest /\
    _bits s = Z.of_nat (length rest) - 2 /\
    _bits s < 40 /\
    Forall valid_pulse (skipn 2 rest) /\
    _code s = bits_value (map classify (skipn 2 rest)).

(** The events a method appended to the trace. *)
Definition since (w w' : World) : list Event :=
  skipn (length (trace w)) (trace w').

Definition is_decode (e : Event) : bool :=
  match e with Decode _ => true | _ => false end.

Definition is_call (e : Event) : bool :=
  match e with Call _ _ => true | _ => false end.

Definition count (p : Event -> bool) (tr : list Event) : nat :=
  length (filter p tr).

(** The seconds of sleep requested along a trace. *)
Fixpoint slept (tr : list Event) : Q :=
  match tr with
  | [] => 0
  | Sleep x :: tr' => x + slept tr'
  | _ :: tr' => slept tr'
  end.

(** The number of sleeps of [x] seconds requested along a trace. *)
Definition sleeps_of (x : Q) (tr : list Event) : nat :=
  count (fun e => match e with Sleep y => Qeq_bool x y | _ => false end) tr.

(** What [_decode_dhtxx] makes of a frame under a model, on an object that
    holds nothing else. *)
Definition interpret (model code : Z) : Sensor :=
  _decode_dhtxx (set_code code (init 0 0 0 model None)).

(** The temperature and humidity of the most recent frame along a trace that
    was interpreted as [DHT_GOOD], starting from [th]. *)
Definition good_step (model : Z) (th : pynum * pynum) (e : Event)
    : pynum * pynum :=
  match e with
  | Decode code =>
      let r := interpret model code in
      if _status r =? DHT_GOOD then (_temperature r, _humidity r) else th
  | _ => th
  end.

Definition last_good (model : Z) (tr : list Event) : pynum * pynum :=
  fold_left (good_step model) tr (PyFloat 0, PyFloat 0).

(** The worlds a sensor object goes through: created by [__init__], then
    driven by edges and by calls of [read]. *)
Inductive reachable : World -> Prop :=
| reach_init tick now gpio model callback :
    reachable (mkWorld (init tick now gpio model callback) [])
| reach_edge w gpio level tick :
    reachable w -> reachable (_rising_edge w gpio level tick)
| reach_read w env :
    reachable w -> reachable (snd (read env w)).

(** The object after a frame whose checksum holds, given the outcome
    [(valid, t, h)] of the validation the model selects. *)
Definition stored (r : bool * pynum * pynum) (s : Sensor) : Sensor :=
  let '(valid, t, h) := r in
  set_new_data true
    (if valid
     then set_status DHT_GOOD (set_humidity h (set_temperature t s))
     else set_status DHT_BAD_DATA s).

(** The three components of a validation's result. *)
Definition valid_of (r : bool * pynum * pynum) : bool := fst (fst r).
Definition temperature_of (r : bool * pynum * pynum) : pynum := snd (fst r).
Definition humidity_of (r : bool * pynum * pynum) : pynum := snd r.

(** The edge handler in the words of the specification's
    [on_rising_edge]: a long gap starts a frame; outside a frame nothing
    else happens; inside one the first two intervals are discard slots, a
    valid pulse appends its bit, a pulse of another width aborts, and the
    fortieth bit completes the frame and hands the accumulator on. *)
Inductive on_rising_edge (w : World) (tick : Z) : World -> Prop :=
| start_frame :
    interval w tick > 10000 ->
    on_rising_edge w tick
      (mkWorld (set_code 0 (set_bits (-2) (set_in_code true
                  (set_last_edge_tick tick (self w)))))
               (trace w))
| not_in_frame :
    interval w tick <= 10000 -> _in_code (self w) = false ->
    on_rising_edge w tick
      (mkWorld (set_last_edge_tick tick (self w)) (trace w))
| discard_slot :
    interval w tick <= 10000 -> _in_code (self w) = true ->
    _bits (self w) < 0 ->
    on_rising_edge w tick
      (mkWorld (set_bits (_bits (self w) + 1)
                  (set_last_edge_tick tick (self w)))
               (trace w))
| data_bit :
    interval w tick <= 10000 -> _in_code (self w) = true ->
    0 <= _bits (self w) -> _bits (self w) + 1 <> 40 ->
    valid_pulse (interval w tick) ->
    on_rising_edge w tick
      (mkWorld (set_code (2 * _code (self w) + classify (interval w tick))
                  (set_bits (_bits (self w) + 1)
                     (set_last_edge_tick tick (self w))))
               (trace w))
| timing_violation :
    interval w tick <= 10000 -> _in_code (self w) = true ->
    0 <= _bits (self w) ->
    ~ valid_pulse (interval w tick) ->
    on_rising_edge w tick
      (mkWorld (set_in_code false
                  (set_code (2 * _code (self w))
                     (set_bits (_bits (self w) + 1)
                        (set_last_edge_tick tick (self w)))))
               (trace w))
| frame_complete :
    interval w tick <= 10000 -> _in_code (self w) = true ->
    _bits (self w) + 1 = 40 ->
    valid_pulse (interval w tick) ->
    on_rising_edge w tick
      (mkWorld (set_in_code false
                  (_decode_dhtxx
                     (set_code
                        (2 * _code (self w) + classify (interval w tick))
                        (set_bits 40 (set_last_edge_tick tick (self w))))))
               (trace w ++
                [Decode (2 * _code (self w) + classify (interval w tick))])).

(** The [k]-th group of eight bits of a transmission, counted from the one
    sent first. *)
Definition octet (k : nat) (bits : list Z) : list Z :=
  firstn 8 (skipn (8 * k) bits).

(** A sample transmission: humidity 80.2 %, temperature 23.4 degrees and
    their checksum, as a sensor of the DHTXX kind sends them, high byte of
    the humidity first: [03 22 00 EA 0F]. *)
Definition sample_bits : list Z :=
  [0;0;0;0;0;0;1;1; 0;0;1;0;0;0;1;0; 0;0;0;0;0;0;0;0;
   1;1;1;0;1;0;1;0; 0;0;0;0;1;1;1;1].

(** Its pulses: 70 microseconds for a 0 and 130 for a 1. *)
Definition sample_data : list Z :=
  map (fun b => if b =? 1 then 130 else 70) sample_bits.

(** The whole exchange: the gap after the trigger, the sensor's two
    response pulses, then the forty data pulses. *)
Definition sample_intervals : list Z := 15000 :: 80 :: 80 :: sample_data.

(** A sensor created at tick 20000, so that its last edge is at 10000. *)
Definition sample_world (model : Z) (callback : option pyfun) : World :=
  mkWorld (init 20000 0 4 model callback) [].

Definition sample_ticks : list Z := ticks_after 10000 sample_intervals.

Definition is_bit (b : Z) : Prop := b = 0 \/ b = 1.

(** A frame handed on that a sensor of this model reads as [DHT_GOOD]. *)
Definition good_frame (model : Z) (e : Event) : bool :=
  match e with
  | Decode code => _status (interpret model code) =? DHT_GOOD
  | _ => false
  end.

(** The stored reading is that of the most recent good frame of the trace,
    or the [0.0] of [__init__]. *)
Definition reading_invariant (w : World) : Prop :=
  (_temperature (self w), _humidity (self w))
    = last_good (_model (self w)) (trace w).

(** A stretch of trace in which the only events are frames handed on, as
    the edge handler leaves it. *)
Definition only_decodes (tr : list Event) : Prop :=
  Forall (fun e => is_decode e = true) tr.

(** Two worlds whose sensor has the same configuration. *)
Definition same_config (w w' : World) : Prop :=
  _gpio (self w') = _gpio (self w) /\
  _model (self w') = _model (self w) /\
  _callback (self w') = _callback (self w).

(** The length of the trigger pulse, as [_trigger] chooses it. *)
Definition trigger_pulse (model : Z) : Q :=
  if negb (model =? DHTXX) then 18 # 1000 else 1 # 1000.

(** Surroundings in which the sensor stays silent. *)
Definition silent : Env := mkEnv 1 [] (fun _ => []).

(** Surroundings in which the sensor answers the trigger during the first
    polling sleep, with edges at the intervals [ivs] counted from the tick
    [last]. *)
Definition answering (last : Z) (ivs : list Z) : Env :=
  mkEnv 1 [] (fun i => match i with
                       | O => ticks_after last ivs
                       | S _ => []
                       end).

(** The sample transmission with the lowest bit of its checksum flipped. *)
Definition corrupt_intervals : list Z :=
  15000 :: 80 :: 80 :: firstn 39 sample_data ++ [70].

(** A sensor of the DHTXX kind after one read answered by the sample
    transmission, and surroundings that answer its next read by the
    corrupted one. *)
Definition after_good_read : World :=
  snd (read (answering 10000 sample_intervals) (sample_world DHTXX None)).

Definition corrupt_answer : Env :=
  answering (_last_edge_tick (self after_good_read)) corrupt_intervals.

(** ** [main.py] *)

(** What [environ.get(name, default)] yields: the string of the variable when
    it is set, the default of the call, an integer, when it is not. *)
Inductive pyval : Type :=
| PyStr (s : String.string)
| PyNumber (z : Z).

Definition environ_get (variable : option String.string) (default : Z)
    : pyval :=
  match variable with
  | Some s => PyStr s
  | None => PyNumber default
  end.

(** [INTERVAL = environ.get("INTERVAL_SECONDS", 10)], given what the
    environment holds for [INTERVAL_SECONDS]. *)
Definition INTERVAL (INTERVAL_SECONDS : option String.string) : pyval :=
  environ_get INTERVAL_SECONDS 10.

(** The closure [_read] that [dht_read_metrics(sensor)] returns:
    [_, _, _, temp, hum = sensor.read(); return temp, hum]. *)
Definition dht_read_metrics (env : Env) (sensor : World)
    : (pynum * pynum) * World :=
  let '(datum, sensor) := read env sensor in
  ((d_temperature datum, d_humidity datum), sensor).

(** [Gauge.set(value)] of prometheus_client keeps [float(value)]. *)
Definition Gauge_set (value : pynum) : Q :=
  match value with
  | PyInt z => float z
  | PyFloat q => q
  end.

(** What [main] holds while it loops outside dummy mode: the sensor object
    and the values of the two gauges. *)
Record Exporter : Type := mkExporter {
  sensor : World;
  TEMPERATURE : Q;
  HUMIDITY : Q
}.

(** What the surroundings supply to one turn of the loop: those of the read,
    and the edges arriving during [sleep(INTERVAL)]. *)
Record Round : Type := mkRound {
  reading_env : Env;
  interval_edges : list Z
}.

(** How a stretch of the loop ends: still looping, or with the [TypeError]
    that [time.sleep] raises when it is given a string. *)
Inductive Outcome : Type :=
| Looping (x : Exporter)
| TypeError (x : Exporter).

(** One turn of [while True:] in [main], [interval] being the value of
    [INTERVAL]: [temp, hum = read_metrics()], [TEMPERATURE.set(temp)],
    [HUMIDITY.set(hum)], [sleep(INTERVAL)]. *)
Definition turn (interval : pyval) (r : Round) (x : Exporter) : Outcome :=
  let '((temp, hum), w) := dht_read_metrics (reading_env r) (sensor x) in
  let x := mkExporter w (Gauge_set temp) (HUMIDITY x) in
  let x := mkExporter (sensor x) (TEMPERATURE x) (Gauge_set hum) in
  match interval with
  | PyNumber seconds =>
      Looping (mkExporter (sleep (inject_Z seconds) (interval_edges r)
                                 (sensor x))
                          (TEMPERATURE x) (HUMIDITY x))
  | PyStr _ => TypeError x
  end.

(** The first turns of the loop, one per round, as far as they get. *)
Fixpoint turns (interval : pyval) (rounds : list Round) (x : Exporter)
    : Outcome :=
  match rounds with
  | [] => Looping x
  | r :: rounds' =>
      match turn interval r x with
      | Looping x' => turns interval rounds' x'
      | TypeError x' => TypeError x'
      end
  end.

(** The state in which an outcome leaves the program. *)
Definition state (o : Outcome) : Exporter :=
  match o with
  | Looping x => x
  | TypeError x => x
  end.

(** [main] when it enters its loop, outside dummy mode and with [GPIO_PIN]
    not set: [sensor = Sensor(gpiod, GPIO)] on GPIO 4, with the default
    model and no callback, the edges [startup] that arrived while the HTTP
    server was started, and two gauges at the [0.0] they are created with. *)
Definition main_start (tick : Z) (now : Q) (startup : list Z) : Exporter :=
  mkExporter (deliver startup (mkWorld (init tick now 4 DHTAUTO None) []))
             0 0.

(** What [main] keeps of its sensor: the stored reading is that of the last
    good frame, the model is the default one, and no callback was given nor
    ever called. *)
Definition exporting (x : Exporter) : Prop :=
  reading_invariant (sensor x) /\
  _model (self (sensor x)) = DHTAUTO /\
  _callback (self (sensor x)) = None /\
  count is_call (trace (sensor x)) = 0%nat.

(** The values [main] sets on the gauges for a stored reading. *)
Definition gauges_of (th : pynum * pynum) : Q * Q :=
  (Gauge_set (fst th), Gauge_set (snd th)).

(** A round in which the sensor stays silent, and one in which it is silent
    during the read and the sample transmission arrives during
    [sleep(INTERVAL)]. *)
Definition silent_round : Round := mkRound silent [].

Definition late_round (last : Z) : Round :=
  mkRound silent (ticks_after last sample_intervals).

(** ** Vocabulary of the further properties *)

(** The number of positions at which two lists of bytes differ. *)
Fixpoint differences (l l' : list Z) : nat :=
  match l, l' with
  | b :: l, c :: l' => ((if Z.eqb b c then 0 else 1) + differences l l')%nat
  | _, _ => 0%nat
  end.

(** The frame handed on last along a trace, if there is one. *)
Definition last_decode (tr : list Event) : option Z :=
  fold_left (fun o e => match e with Decode code => Some code | _ => o end)
            tr None.

(** The object as the first three assignments of [_trigger] leave it. *)
Definition reset (env : Env) (w : World) : World :=
  update (set_status DHT_TIMEOUT)
    (update (set_timestamp (clock env)) (update (set_new_data false) w)).

(** What the edge handler can have done between two moments: the trace grew,
    the configuration and the timestamp stayed, and the status and
    [_new_data] are those of the last frame handed on, if there was one. *)
Definition follows (w w' : World) : Prop :=
  exists added,
    trace w' = trace w ++ added /\
    same_config w w' /\
    _timestamp (self w') = _timestamp (self w) /\
    match last_decode added with
    | Some code =>
        _status (self w') = _status (interpret (_model (self w)) code) /\
        _new_data (self w') = true
    | None =>
        _status (self w') = _status (self w) /\
        _new_data (self w') = _new_data (self w)
    end.

(** The bounds the decoder keeps on its counters and its status. *)
Definition well_formed (s : Sensor) : Prop :=
  -2 <= _bits s <= 40 /\
  0 <= _code s < 2 ^ Z.max 0 (_bits s) /\
  (_in_code s = true -> _bits s < 40) /\
  0 <= _status s <= 3.

(** A frame handed on is a 40-bit word. *)
Definition is_frame (e : Event) : Prop :=
  match e with
  | Decode code => 0 <= code < 2 ^ 40
  | _ => True
  end.

Definition bounded (w : World) : Prop :=
  well_formed (self w) /\ Forall is_frame (trace w).


(** * Properties *)

(** ** Bytes of a frame *)

Lemma land_255_mod (x : Z) : Z.land x 255 = x mod 256.
Proof. change 255 with (Z.ones 8). rewrite Z.land_ones by lia. reflexivity. Qed.

Lemma shiftr_div (x n : Z) : 0 <= n -> Z.shiftr x n = x / 2 ^ n.
Proof. intros Hn. apply Z.shiftr_div_pow2. exact Hn. Qed.

Lemma byte0_range (code : Z) : is_byte (byte0 code).
Proof. unfold is_byte, byte0. rewrite land_255_mod. apply Z.mod_pos_bound. lia. Qed.

Lemma byte1_range (code : Z) : is_byte (byte1 code).
Proof. unfold is_byte, byte1. rewrite land_255_mod. apply Z.mod_pos_bound. lia. Qed.

Lemma byte2_range (code : Z) : is_byte (byte2 code).
Proof. unfold is_byte, byte2. rewrite land_255_mod. apply Z.mod_pos_bound. lia. Qed.

Lemma byte3_range (code : Z) : is_byte (byte3 code).
Proof. unfold is_byte, byte3. rewrite land_255_mod. apply Z.mod_pos_bound. lia. Qed.

Lemma byte4_range (code : Z) : is_byte (byte4 code).
Proof. unfold is_byte, byte4. rewrite land_255_mod. apply Z.mod_pos_bound. lia. Qed.

Section FrameOfBytes.
Variables b0 b1 b2 b3 b4 : Z.
Hypothesis H0 : is_byte b0.
Hypothesis H1 : is_byte b1.
Hypothesis H2 : is_byte b2.
Hypothesis H3 : is_byte b3.
Hypothesis H4 : is_byte b4.

Lemma frame_40_bits : 0 <= (frame_of_bytes b0 b1 b2 b3 b4) < 2 ^ 40.
Proof. unfold frame_of_bytes, is_byte in *. lia. Qed.

Lemma byte0_frame : byte0 (frame_of_bytes b0 b1 b2 b3 b4) = b0.
Proof.
  unfold byte0, frame_of_bytes, is_byte in *. rewrite land_255_mod.
  Z.div_mod_to_equations. lia.
Qed.

Lemma byte1_frame : byte1 (frame_of_bytes b0 b1 b2 b3 b4) = b1.
Proof.
  unfold byte1, frame_of_bytes, is_byte in *.
  rewrite land_255_mod, shiftr_div by lia.
  Z.div_mod_to_equations. lia.
Qed.

Lemma byte2_frame : byte2 (frame_of_bytes b0 b1 b2 b3 b4) = b2.
Proof.
  unfold byte2, frame_of_bytes, is_byte in *.
  rewrite land_255_mod, shiftr_div by lia.
  Z.div_mod_to_equations. lia.
Qed.

Lemma byte3_frame : byte3 (frame_of_bytes b0 b1 b2 b3 b4) = b3.
Proof.
  unfold byte3, frame_of_bytes, is_byte in *.
  rewrite land_255_mod, shiftr_div by lia.
  Z.div_mod_to_equations. lia.
Qed.

Lemma byte4_frame : byte4 (frame_of_bytes b0 b1 b2 b3 b4) = b4.
Proof.
  unfold byte4, frame_of_bytes, is_byte in *.
  rewrite land_255_mod, shiftr_div by lia.
  Z.div_mod_to_equations. lia.
Qed.
End FrameOfBytes.

(** Every 40-bit word is the frame of its five bytes. *)
Lemma frame_of_its_bytes (code : Z) :
  0 <= code < 2 ^ 40 ->
  code = frame_of_bytes (byte0 code) (byte1 code) (byte2 code)
                        (byte3 code) (byte4 code).
Proof.
  intros Hc. unfold frame_of_bytes, byte0, byte1, byte2, byte3, byte4.
  rewrite !land_255_mod, !shiftr_div by lia.
  Z.div_mod_to_equations. lia.
Qed.

(** ** [_decode_dhtxx], case by case *)

Lemma checksum_test (code : Z) :
  (Z.land (byte1 code + byte2 code + byte3 code + byte4 code) 255
     =? byte0 code) = true <-> checksum_ok code.
Proof.
  unfold checksum_ok. rewrite Z.eqb_eq, land_255_mod.
  split; intros H; symmetry; exact H.
Qed.

Lemma decode_bad_checksum (s : Sensor) :
  ~ checksum_ok (_code s) ->
  _decode_dhtxx s = set_new_data true (set_status DHT_BAD_CHECKSUM s).
Proof.
  intros Hbad. unfold _decode_dhtxx.
  fold (byte0 (_code s)) (byte1 (_code s)) (byte2 (_code s))
       (byte3 (_code s)) (byte4 (_code s)).
  destruct (Z.land _ 255 =? byte0 (_code s)) eqn:E; [|reflexivity].
  apply checksum_test in E. contradiction.
Qed.

Lemma decode_dht11 (s : Sensor) :
  checksum_ok (_code s) -> _model s = DHT11 ->
  _decode_dhtxx s =
  stored (_validate_DHT11 (byte1 (_code s)) (byte2 (_code s))
                          (byte3 (_code s)) (byte4 (_code s))) s.
Proof.
  intros Hok Hm. unfold _decode_dhtxx.
  fold (byte0 (_code s)) (byte1 (_code s)) (byte2 (_code s))
       (byte3 (_code s)) (byte4 (_code s)).
  apply checksum_test in Hok. rewrite Hok, Hm. cbn [Z.eqb DHT11 Pos.eqb].
  unfold stored. destruct (_validate_DHT11 _ _ _ _) as [[valid t] h].
  reflexivity.
Qed.

Lemma decode_dhtxx (s : Sensor) :
  checksum_ok (_code s) -> _model s = DHTXX ->
  _decode_dhtxx s =
  stored (_validate_DHTXX (byte1 (_code s)) (byte2 (_code s))
                          (byte3 (_code s)) (byte4 (_code s))) s.
Proof.
  intros Hok Hm. unfold _decode_dhtxx.
  fold (byte0 (_code s)) (byte1 (_code s)) (byte2 (_code s))
       (byte3 (_code s)) (byte4 (_code s)).
  apply checksum_test in Hok. rewrite Hok, Hm. cbn [Z.eqb DHT11 DHTXX Pos.eqb].
  unfold stored. destruct (_validate_DHTXX _ _ _ _) as [[valid t] h].
  reflexivity.
Qed.

Lemma decode_auto (s : Sensor) :
  checksum_ok (_code s) -> _model s <> DHT11 -> _model s <> DHTXX ->
  _decode_dhtxx s =
  stored
    (if fst (fst (_validate_DHTXX (byte1 (_code s)) (byte2 (_code s))
                                  (byte3 (_code s)) (byte4 (_code s))))
     then _validate_DHTXX (byte1 (_code s)) (byte2 (_code s))
                          (byte3 (_code s)) (byte4 (_code s))
     else _validate_DHT11 (byte1 (_code s)) (byte2 (_code s))
                          (byte3 (_code s)) (byte4 (_code s))) s.
Proof.
  intros Hok H11 Hxx. unfold _decode_dhtxx.
  fold (byte0 (_code s)) (byte1 (_code s)) (byte2 (_code s))
       (byte3 (_code s)) (byte4 (_code s)).
  apply checksum_test in Hok. rewrite Hok.
  apply Z.eqb_neq in H11, Hxx. rewrite H11, Hxx.
  unfold stored.
  destruct (_validate_DHTXX _ _ _ _) as [[valid t] h]. cbn [fst].
  destruct valid; cbn [negb];
    [|destruct (_validate_DHT11 _ _ _ _) as [[valid' t'] h']]; reflexivity.
Qed.

(** ** The DHTXX reading *)

Lemma lor_shiftl_8 (a b : Z) :
  is_byte b -> Z.lor (Z.shiftl a 8) b = Z.shiftl a 8 + b.
Proof.
  intros Hb.
  assert (Hdisjoint : Z.land (Z.shiftl a 8) b = 0);
    [|pose proof (Z.add_lor_land (Z.shiftl a 8) b); lia].
  apply Z.bits_inj'. intros n Hn.
  rewrite Z.land_spec, Z.bits_0.
  destruct (Z.lt_ge_cases n 8) as [Hlt | Hge].
  - rewrite Z.shiftl_spec_low by exact Hlt. reflexivity.
  - replace (Z.testbit b n) with false; [apply andb_false_r|].
    symmetry. destruct (Z.eq_dec b 0) as [-> | Hnz]; [apply Z.bits_0|].
    apply Z.bits_above_log2; [unfold is_byte in Hb; lia|].
    apply Z.log2_lt_pow2; unfold is_byte in Hb; [lia|].
    apply Z.lt_le_trans with (2 ^ 8); [lia|].
    apply Z.pow_le_mono_r; lia.
Qed.

Lemma sign_flag (b2 : Z) : negb (Z.land b2 128 =? 0) = Z.testbit b2 7.
Proof.
  assert (H : Z.land b2 128 = if Z.testbit b2 7 then 128 else 0).
  { apply Z.bits_inj'. intros n Hn. rewrite Z.land_spec.
    change 128 with (2 ^ 7). rewrite Z.pow2_bits_eqb by lia.
    destruct (Z.eqb_spec 7 n) as [<- | Hne].
    - destruct (Z.testbit b2 7); cbn [andb].
      + rewrite Z.pow2_bits_eqb by lia. reflexivity.
      + symmetry. apply Z.bits_0.
    - rewrite andb_false_r. destruct (Z.testbit b2 7).
      + rewrite Z.pow2_bits_eqb by lia. symmetry. apply Z.eqb_neq. exact Hne.
      + symmetry. apply Z.bits_0. }
  rewrite H. destruct (Z.testbit b2 7); reflexivity.
Qed.

Lemma fdiv_exact (x y : Q) : (fdiv x y == x / y)%Q.
Proof. unfold fdiv. apply Qred_correct. Qed.

Lemma div_minus_ten (x : Q) : (x / (-10 # 1) == - (x / (10 # 1)))%Q.
Proof. unfold Qdiv. change (/ (-10 # 1))%Q with (- / (10 # 1))%Q. ring. Qed.

Lemma validate_dhtxx_reading (b1 b2 b3 b4 : Z) :
  is_byte b1 -> is_byte b3 ->
  exists valid t h,
    _validate_DHTXX b1 b2 b3 b4 = (valid, PyFloat t, PyFloat h) /\
    (t == dhtxx_temperature b1 b2)%Q /\
    (h == dhtxx_humidity b3 b4)%Q /\
    (valid = true <-> dhtxx_in_range t h).
Proof.
  intros Hb1 Hb3. unfold _validate_DHTXX.
  set (t := fdiv (float (Z.shiftl (Z.land b2 127) 8 + b1)) _).
  set (h := fdiv (float (Z.shiftl b4 8 + b3)) _).
  exists (if Qle_bool h (110 # 1) && Qle_bool (-50 # 1) t
               && Qle_bool t (135 # 1) then true else false), t, h.
  split; [reflexivity|]. split; [|split].
  - unfold t, dhtxx_temperature, float.
    rewrite fdiv_exact, sign_flag, lor_shiftl_8 by exact Hb1.
    destruct (Z.testbit b2 7); [apply div_minus_ten | reflexivity].
  - unfold h, dhtxx_humidity, float.
    rewrite fdiv_exact, lor_shiftl_8 by exact Hb3. reflexivity.
  - unfold dhtxx_in_range. rewrite <- !Qle_bool_iff.
    destruct (Qle_bool h (110 # 1)), (Qle_bool (-50 # 1) t),
      (Qle_bool t (135 # 1)); cbn; intuition congruence.
Qed.

(** ** Status and stored values after a frame *)

Lemma stored_status (r : bool * pynum * pynum) (s : Sensor) :
  _status (stored r s) = if valid_of r then DHT_GOOD else DHT_BAD_DATA.
Proof. destruct r as [[[|] t] h]; reflexivity. Qed.

Lemma stored_good (r : bool * pynum * pynum) (s : Sensor) :
  valid_of r = true ->
  _temperature (stored r s) = temperature_of r /\
  _humidity (stored r s) = humidity_of r.
Proof. destruct r as [[[|] t] h]; cbn; intros H; [split; reflexivity | discriminate]. Qed.

Lemma stored_bad (r : bool * pynum * pynum) (s : Sensor) :
  valid_of r = false ->
  _temperature (stored r s) = _temperature s /\
  _humidity (stored r s) = _humidity s.
Proof. destruct r as [[[|] t] h]; cbn; intros H; [discriminate | split; reflexivity]. Qed.

(** With a matching checksum the model selects the validation. *)
Lemma decode_checksum_ok (s : Sensor) :
  checksum_ok (_code s) ->
  exists r, _decode_dhtxx s = stored r s.
Proof.
  intros Hok.
  destruct (Z.eq_dec (_model s) DHT11) as [H11 | H11].
  { eexists. apply decode_dht11; assumption. }
  destruct (Z.eq_dec (_model s) DHTXX) as [Hxx | Hxx].
  { eexists. apply decode_dhtxx; assumption. }
  eexists. apply decode_auto; assumption.
Qed.

Lemma checksum_ok_frame (b0 b1 b2 b3 b4 : Z) :
  is_byte b0 -> is_byte b1 -> is_byte b2 -> is_byte b3 -> is_byte b4 ->
  checksum_ok (frame_of_bytes b0 b1 b2 b3 b4) <->
  b0 = (b1 + b2 + b3 + b4) mod 256.
Proof.
  intros H0 H1 H2 H3 H4. unfold checksum_ok.
  rewrite byte0_frame, byte1_frame, byte2_frame, byte3_frame, byte4_frame
    by assumption.
  reflexivity.
Qed.

(** C2: for a frame assembled from the bytes [b0] (lowest) to [b4], on a
    sensor of any model, [_decode_dhtxx] leaves the status
    [DHT_BAD_CHECKSUM] if and only if [b0] differs from
    [(b1 + b2 + b3 + b4) mod 256]; so a frame whose [b0] is that sum is never
    [DHT_BAD_CHECKSUM], and one whose [b0] differs always is. *)
Theorem bad_checksum_iff (s : Sensor) (b0 b1 b2 b3 b4 : Z) :
  is_byte b0 -> is_byte b1 -> is_byte b2 -> is_byte b3 -> is_byte b4 ->
  _code s = frame_of_bytes b0 b1 b2 b3 b4 ->
  (_status (_decode_dhtxx s) = DHT_BAD_CHECKSUM <->
   b0 <> (b1 + b2 + b3 + b4) mod 256) /\
  (b0 = (b1 + b2 + b3 + b4) mod 256 ->
   _status (_decode_dhtxx s) <> DHT_BAD_CHECKSUM) /\
  (b0 <> (b1 + b2 + b3 + b4) mod 256 ->
   _status (_decode_dhtxx s) = DHT_BAD_CHECKSUM).
Proof.
  intros H0 H1 H2 H3 H4 Hcode.
  pose proof (checksum_ok_frame b0 b1 b2 b3 b4 H0 H1 H2 H3 H4) as Hsum.
  rewrite <- Hcode in Hsum.
  assert (Hgood : checksum_ok (_code s) ->
                  _status (_decode_dhtxx s) <> DHT_BAD_CHECKSUM).
  { intros Hok. destruct (decode_checksum_ok s Hok) as [r ->].
    rewrite stored_status. destruct (valid_of r); discriminate. }
  assert (Hbad : ~ checksum_ok (_code s) ->
                 _status (_decode_dhtxx s) = DHT_BAD_CHECKSUM).
  { intros Hno. rewrite decode_bad_checksum by exact Hno. reflexivity. }
  split; [|split].
  - split.
    + intros Hst Heq. apply Hgood; [apply Hsum; exact Heq | exact Hst].
    + intros Hne. apply Hbad. intros Hok. apply Hne, Hsum, Hok.
  - intros Heq. apply Hgood, Hsum, Heq.
  - intros Hne. apply Hbad. intros Hok. apply Hne, Hsum, Hok.
Qed.

Ltac byte_range := unfold is_byte; lia.

Lemma bad_checksum_iff_witness :
  _status (_decode_dhtxx
             (set_code (frame_of_bytes 150 0 60 0 90)
                       (init 0 0 4 DHT11 None))) <> DHT_BAD_CHECKSUM /\
  _status (_decode_dhtxx
             (set_code (frame_of_bytes 7 0 60 0 90)
                       (init 0 0 4 DHTAUTO None))) = DHT_BAD_CHECKSUM.
Proof.
  split.
  - apply (bad_checksum_iff
             (set_code (frame_of_bytes 150 0 60 0 90) (init 0 0 4 DHT11 None))
             150 0 60 0 90); try byte_range; reflexivity.
  - apply (bad_checksum_iff
             (set_code (frame_of_bytes 7 0 60 0 90) (init 0 0 4 DHTAUTO None))
             7 0 60 0 90); try byte_range; [reflexivity | discriminate].
Defined.

(** ** The DHTXX model *)

(** C3: on a sensor configured as DHTXX, a frame whose checksum holds is read
    as the sign-and-magnitude temperature
    [((b2 & 0x7F) << 8 | b1) / 10.0], negated exactly when bit 7 of [b2] is
    set, and the humidity [((b4 << 8) | b3) / 10.0]; the status is [DHT_GOOD]
    if and only if the humidity is at most 110 and the temperature lies
    between -50 and 135, and [DHT_BAD_DATA] otherwise; a good reading is
    stored.  Bytes [b2 = 0x81], [b1 = 0x90] read as -40.0. *)
Theorem dhtxx_reading (s : Sensor) :
  _model s = DHTXX -> checksum_ok (_code s) ->
  exists valid t h,
    _validate_DHTXX (byte1 (_code s)) (byte2 (_code s))
                    (byte3 (_code s)) (byte4 (_code s))
      = (valid, PyFloat t, PyFloat h) /\
    (t == dhtxx_temperature (byte1 (_code s)) (byte2 (_code s)))%Q /\
    (h == dhtxx_humidity (byte3 (_code s)) (byte4 (_code s)))%Q /\
    (_status (_decode_dhtxx s) = DHT_GOOD <-> dhtxx_in_range t h) /\
    (_status (_decode_dhtxx s) = DHT_BAD_DATA <-> ~ dhtxx_in_range t h) /\
    (_status (_decode_dhtxx s) = DHT_GOOD ->
     _temperature (_decode_dhtxx s) = PyFloat t /\
     _humidity (_decode_dhtxx s) = PyFloat h) /\
    (byte1 (_code s) = 144 -> byte2 (_code s) = 129 -> t = (-40 # 1)%Q).
Proof.
  intros Hm Hok.
  destruct (validate_dhtxx_reading (byte1 (_code s)) (byte2 (_code s))
              (byte3 (_code s)) (byte4 (_code s))
              (byte1_range _) (byte3_range _))
    as (valid & t & h & Hv & Ht & Hh & Hrange).
  exists valid, t, h.
  rewrite (decode_dhtxx s Hok Hm), Hv, stored_status.
  unfold valid_of; cbn [fst].
  split; [reflexivity|]. split; [exact Ht|]. split; [exact Hh|].
  split; [|split; [|split]].
  - rewrite <- Hrange. destruct valid; split; intros H;
      reflexivity || discriminate.
  - rewrite <- Hrange. destruct valid; split; intros H;
      try reflexivity; try discriminate; exfalso; apply H; reflexivity.
  - destruct valid; intros H; [split; reflexivity | discriminate].
  - intros E1 E2. rewrite E1, E2 in Hv. unfold _validate_DHTXX in Hv.
    apply (f_equal temperature_of) in Hv. cbv [temperature_of fst snd] in Hv.
    injection Hv as Ht'. rewrite <- Ht'. reflexivity.
Qed.

(** The frame with [b1 = 0x90], [b2 = 0x81], no humidity, and its checksum
    [0x11], on a DHTXX sensor: -40.0 degrees, a good reading. *)
Lemma dhtxx_reading_witness :
  exists valid t h,
    _validate_DHTXX 144 129 0 0 = (valid, PyFloat t, PyFloat h) /\
    (t == dhtxx_temperature 144 129)%Q /\
    (h == dhtxx_humidity 0 0)%Q /\
    t = (-40 # 1)%Q.
Proof.
  destruct (dhtxx_reading
              (set_code (frame_of_bytes 17 144 129 0 0)
                        (init 0 0 4 DHTXX None)))
    as (valid & t & h & Hv & Ht & Hh & _ & _ & _ & H40).
  - reflexivity.
  - reflexivity.
  - exists valid, t, h. repeat split; try assumption.
    apply H40; reflexivity.
Defined.

(** ** The AUTO model *)

(** C4: on a sensor configured as AUTO, a frame whose checksum holds is first
    validated as DHTXX, and as DHT11 on the same bytes exactly when the DHTXX
    validation fails.  So whenever the DHTXX validation succeeds its reading
    is the one stored, whatever the DHT11 validation would say; and the
    status is [DHT_BAD_DATA] only when both validations fail. *)
Theorem auto_fallback (s : Sensor) :
  _model s = DHTAUTO -> checksum_ok (_code s) ->
  let xx := _validate_DHTXX (byte1 (_code s)) (byte2 (_code s))
                            (byte3 (_code s)) (byte4 (_code s)) in
  let d11 := _validate_DHT11 (byte1 (_code s)) (byte2 (_code s))
                             (byte3 (_code s)) (byte4 (_code s)) in
  _decode_dhtxx s = stored (if valid_of xx then xx else d11) s /\
  (valid_of xx = true ->
   _status (_decode_dhtxx s) = DHT_GOOD /\
   _temperature (_decode_dhtxx s) = temperature_of xx /\
   _humidity (_decode_dhtxx s) = humidity_of xx) /\
  (valid_of xx = false -> valid_of d11 = true ->
   _status (_decode_dhtxx s) = DHT_GOOD /\
   _temperature (_decode_dhtxx s) = temperature_of d11 /\
   _humidity (_decode_dhtxx s) = humidity_of d11) /\
  (_status (_decode_dhtxx s) = DHT_BAD_DATA <->
   valid_of xx = false /\ valid_of d11 = false).
Proof.
  intros Hm Hok xx d11.
  assert (Hdec : _decode_dhtxx s = stored (if valid_of xx then xx else d11) s).
  { apply decode_auto; [exact Hok | rewrite Hm; discriminate ..]. }
  split; [exact Hdec|]. rewrite Hdec, stored_status.
  split; [|split].
  - intros Hxx. rewrite Hxx. split; [rewrite Hxx; reflexivity|].
    apply stored_good. exact Hxx.
  - intros Hxx H11. rewrite Hxx. split; [rewrite H11; reflexivity|].
    apply stored_good. exact H11.
  - destruct (valid_of xx) eqn:Hxx.
    + rewrite Hxx. split; [discriminate | intros [H _]; discriminate].
    + destruct (valid_of d11); split;
        try discriminate; try (intros [_ H]; discriminate); auto.
Qed.

(** Humidity 80.2 % and temperature 23.4 degrees in the DHTXX encoding, on an
    AUTO sensor. *)
Lemma auto_fallback_witness :
  _status (_decode_dhtxx (set_code (frame_of_bytes 15 234 0 34 3)
                                   (init 0 0 4 DHTAUTO None))) = DHT_GOOD /\
  _temperature (_decode_dhtxx (set_code (frame_of_bytes 15 234 0 34 3)
                                        (init 0 0 4 DHTAUTO None)))
    = PyFloat (117 # 5) /\
  _humidity (_decode_dhtxx (set_code (frame_of_bytes 15 234 0 34 3)
                                     (init 0 0 4 DHTAUTO None)))
    = PyFloat (401 # 5).
Proof.
  apply (auto_fallback (set_code (frame_of_bytes 15 234 0 34 3)
                                 (init 0 0 4 DHTAUTO None)));
    reflexivity.
Defined.

(** No four bytes pass both validations: DHT11 wants [b4 >= 9], which as the
    high byte of a DHTXX humidity is already 230.4 %. *)
Lemma validations_exclusive (b1 b2 b3 b4 : Z) :
  0 <= b3 ->
  valid_of (_validate_DHT11 b1 b2 b3 b4) = true ->
  valid_of (_validate_DHTXX b1 b2 b3 b4) = false.
Proof.
  intros Hb3 H11. unfold _validate_DHT11, valid_of in H11. cbn [fst] in H11.
  destruct ((b1 =? 0) && (b3 =? 0) && (b2 <=? 60) && (b4 >=? 9) && (b4 <=? 90))
    eqn:E; [|discriminate].
  rewrite !andb_true_iff in E. destruct E as [[[_ _] Hge] _].
  unfold _validate_DHTXX, valid_of. cbn [fst].
  destruct (Qle_bool (fdiv (float (Z.shiftl b4 8 + b3)) (10 # 1)) (110 # 1))
    eqn:Eh; [|reflexivity].
  exfalso. apply Qle_bool_iff in Eh. rewrite fdiv_exact in Eh.
  pose proof (Z.shiftl_mul_pow2 b4 8) as Hshift.
  unfold float, Qle, Qdiv, Qmult, Qinv, inject_Z in Eh.
  cbn [Qnum Qden] in Eh. lia.
Qed.

(** ** The DHT11 model *)

Lemma validate_dht11_reading (b1 b2 b3 b4 : Z) :
  _validate_DHT11 b1 b2 b3 b4
    = (valid_of (_validate_DHT11 b1 b2 b3 b4), PyInt b2, PyInt b4) /\
  (valid_of (_validate_DHT11 b1 b2 b3 b4) = true <->
   dht11_in_range b1 b2 b3 b4).
Proof.
  unfold _validate_DHT11, valid_of, dht11_in_range. cbn [fst].
  split; [reflexivity|].
  destruct ((b1 =? 0) && (b3 =? 0) && (b2 <=? 60) && (b4 >=? 9) && (b4 <=? 90))
    eqn:E.
  - rewrite !andb_true_iff in E. split; [intros _; lia | reflexivity].
  - split; [discriminate|]. intros (-> & -> & H2 & H4 & H4').
    cbn [Z.eqb andb] in E.
    apply Z.leb_le in H2, H4'. apply Z.geb_le in H4.
    rewrite H2, H4, H4' in E. discriminate.
Qed.

(** C5: on a sensor configured as DHT11, a frame whose checksum holds reads
    as the integers temperature [b2] and humidity [b4]; the status is
    [DHT_GOOD] if and only if [b1 = 0], [b3 = 0], [b2 <= 60] and
    [9 <= b4 <= 90], and [DHT_BAD_DATA] otherwise.  The frame of
    [(b1, b2, b3, b4) = (0, 60, 0, 90)] is good, with temperature 60 and
    humidity 90; the frame of [(0, 61, 0, 90)] is bad data. *)
Theorem dht11_reading (s : Sensor) :
  _model s = DHT11 ->
  (checksum_ok (_code s) ->
   let b1 := byte1 (_code s) in let b2 := byte2 (_code s) in
   let b3 := byte3 (_code s) in let b4 := byte4 (_code s) in
   temperature_of (_validate_DHT11 b1 b2 b3 b4) = PyInt b2 /\
   humidity_of (_validate_DHT11 b1 b2 b3 b4) = PyInt b4 /\
   (_status (_decode_dhtxx s) = DHT_GOOD <-> dht11_in_range b1 b2 b3 b4) /\
   (_status (_decode_dhtxx s) = DHT_BAD_DATA <->
    ~ dht11_in_range b1 b2 b3 b4) /\
   (_status (_decode_dhtxx s) = DHT_GOOD ->
    _temperature (_decode_dhtxx s) = PyInt b2 /\
    _humidity (_decode_dhtxx s) = PyInt b4)) /\
  (_code s = frame_of_bytes 150 0 60 0 90 ->
   _status (_decode_dhtxx s) = DHT_GOOD /\
   _temperature (_decode_dhtxx s) = PyInt 60 /\
   _humidity (_decode_dhtxx s) = PyInt 90) /\
  (_code s = frame_of_bytes 151 0 61 0 90 ->
   _status (_decode_dhtxx s) = DHT_BAD_DATA).
Proof.
  intros Hm.
  assert (General : checksum_ok (_code s) ->
    let b1 := byte1 (_code s) in let b2 := byte2 (_code s) in
    let b3 := byte3 (_code s) in let b4 := byte4 (_code s) in
    temperature_of (_validate_DHT11 b1 b2 b3 b4) = PyInt b2 /\
    humidity_of (_validate_DHT11 b1 b2 b3 b4) = PyInt b4 /\
    (_status (_decode_dhtxx s) = DHT_GOOD <-> dht11_in_range b1 b2 b3 b4) /\
    (_status (_decode_dhtxx s) = DHT_BAD_DATA <->
     ~ dht11_in_range b1 b2 b3 b4) /\
    (_status (_decode_dhtxx s) = DHT_GOOD ->
     _temperature (_decode_dhtxx s) = PyInt b2 /\
     _humidity (_decode_dhtxx s) = PyInt b4)).
  { intros Hok b1 b2 b3 b4.
    destruct (validate_dht11_reading b1 b2 b3 b4) as [Hr Hrange].
    rewrite (decode_dht11 s Hok Hm). fold b1 b2 b3 b4.
    rewrite stored_status.
    split; [rewrite Hr; reflexivity|]. split; [rewrite Hr; reflexivity|].
    destruct (valid_of (_validate_DHT11 b1 b2 b3 b4)) eqn:Hv.
    - split; [|split].
      + split; [intros _; apply Hrange; reflexivity | reflexivity].
      + split; [discriminate|]. intros Hno. exfalso.
        apply Hno, Hrange. reflexivity.
      + intros _. destruct (stored_good _ s Hv) as [Ht Hh].
        rewrite Ht, Hh, Hr. split; reflexivity.
    - split; [|split].
      + split; [discriminate|]. intros Hin. apply Hrange in Hin. discriminate.
      + split; [|reflexivity]. intros _ Hin. apply Hrange in Hin.
        discriminate.
      + discriminate. }
  split; [exact General|]. split.
  - intros Hcode.
    assert (Hok : checksum_ok (_code s)) by (rewrite Hcode; reflexivity).
    destruct (General Hok) as (_ & _ & Hgood & _ & Hstored).
    rewrite Hcode in Hgood, Hstored.
    assert (Hst : _status (_decode_dhtxx s) = DHT_GOOD).
    { apply Hgood. unfold dht11_in_range. vm_compute.
      repeat split; discriminate. }
    split; [exact Hst | exact (Hstored Hst)].
  - intros Hcode.
    assert (Hok : checksum_ok (_code s)) by (rewrite Hcode; reflexivity).
    destruct (General Hok) as (_ & _ & _ & Hbad & _).
    rewrite Hcode in Hbad. apply Hbad.
    unfold dht11_in_range. vm_compute. intros (_ & _ & H & _).
    apply H. reflexivity.
Qed.

Lemma dht11_reading_witness :
  (_status (_decode_dhtxx (set_code (frame_of_bytes 150 0 60 0 90)
                                    (init 0 0 4 DHT11 None))) = DHT_GOOD /\
   _temperature (_decode_dhtxx (set_code (frame_of_bytes 150 0 60 0 90)
                                         (init 0 0 4 DHT11 None))) = PyInt 60 /\
   _humidity (_decode_dhtxx (set_code (frame_of_bytes 150 0 60 0 90)
                                      (init 0 0 4 DHT11 None))) = PyInt 90) /\
  _status (_decode_dhtxx (set_code (frame_of_bytes 151 0 61 0 90)
                                   (init 0 0 4 DHT11 None))) = DHT_BAD_DATA.
Proof.
  split.
  - apply (dht11_reading (set_code (frame_of_bytes 150 0 60 0 90)
                                   (init 0 0 4 DHT11 None)));
      reflexivity.
  - apply (dht11_reading (set_code (frame_of_bytes 151 0 61 0 90)
                                   (init 0 0 4 DHT11 None)));
      reflexivity.
Defined.

(** ** One edge *)

Lemma shiftl_1 (c : Z) : Z.shiftl c 1 = 2 * c.
Proof. rewrite Z.shiftl_mul_pow2 by lia. lia. Qed.

Lemma classify_bit (i : Z) :
  (classify i = 1 <-> i > 100) /\ (classify i = 0 <-> i <= 100).
Proof. unfold classify. destruct (Z.gtb_spec i 100); lia. Qed.

Lemma valid_pulse_test (i : Z) :
  (i >=? 60) && (i <=? 150) = true <-> valid_pulse i.
Proof. unfold valid_pulse. rewrite andb_true_iff, Z.geb_le, Z.leb_le. tauto. Qed.

Ltac edge_simpl :=
  cbn -[Z.shiftl Z.mul Z.add Z.geb Z.gtb Z.leb Z.eqb _decode_dhtxx tickDiff].

(* Names the measured interval and splits the world into object and trace. *)
Ltac edge_open w tick i s tr :=
  unfold _rising_edge; fold (interval w tick);
  set (i := interval w tick) in *; clearbody i;
  destruct w as [s tr]; cbn [self trace] in *; edge_simpl.

Ltac edge_close :=
  unfold update, emit, set_code, set_bits, set_in_code, set_last_edge_tick;
  edge_simpl; rewrite ?shiftl_1, ?Z.add_0_r; reflexivity.

(** A long gap starts a frame, whatever the state before. *)
Lemma edge_restart (w : World) (gpio level tick : Z) :
  interval w tick > 10000 ->
  _rising_edge w gpio level tick =
  mkWorld (set_code 0 (set_bits (-2) (set_in_code true
             (set_last_edge_tick tick (self w)))))
          (trace w).
Proof.
  intros Hgap. edge_open w tick i s tr.
  destruct (Z.gtb_spec i 10000); [reflexivity | lia].
Qed.

(** Outside a frame a shorter interval only moves the last tick. *)
Lemma edge_idle (w : World) (gpio level tick : Z) :
  interval w tick <= 10000 -> _in_code (self w) = false ->
  _rising_edge w gpio level tick =
  mkWorld (set_last_edge_tick tick (self w)) (trace w).
Proof.
  intros Hshort Hidle. edge_open w tick i s tr.
  destruct (Z.gtb_spec i 10000); [lia|].
  rewrite Hidle. reflexivity.
Qed.

(** The two slots after the gap only count. *)
Lemma edge_discard (w : World) (gpio level tick : Z) :
  interval w tick <= 10000 -> _in_code (self w) = true ->
  _bits (self w) < 0 ->
  _rising_edge w gpio level tick =
  mkWorld (set_bits (_bits (self w) + 1) (set_last_edge_tick tick (self w)))
          (trace w).
Proof.
  intros Hshort Hin Hbits. edge_open w tick i s tr.
  destruct (Z.gtb_spec i 10000); [lia|]. rewrite Hin.
  destruct (Z.geb_spec (_bits s + 1) 1); [lia|].
  edge_simpl. rewrite Hin.
  destruct (Z.eqb_spec (_bits s + 1) 40); [lia | reflexivity].
Qed.

(** A valid pulse before the fortieth appends its bit. *)
Lemma edge_bit (w : World) (gpio level tick : Z) :
  interval w tick <= 10000 -> _in_code (self w) = true ->
  0 <= _bits (self w) -> _bits (self w) + 1 <> 40 ->
  valid_pulse (interval w tick) ->
  _rising_edge w gpio level tick =
  mkWorld (set_code (2 * _code (self w) + classify (interval w tick))
             (set_bits (_bits (self w) + 1)
                (set_last_edge_tick tick (self w))))
          (trace w).
Proof.
  intros Hshort Hin Hbits Hnot40 Hvalid. edge_open w tick i s tr.
  destruct (Z.gtb_spec i 10000); [lia|]. rewrite Hin.
  destruct (Z.geb_spec (_bits s + 1) 1); [|lia].
  apply valid_pulse_test in Hvalid. rewrite Hvalid. unfold classify.
  destruct (i >? 100); edge_simpl; rewrite Hin;
    (destruct (Z.eqb_spec (_bits s + 1) 40); [lia|]); edge_close.
Qed.

(** A pulse of the wrong width ends the frame, and nothing is handed on. *)
Lemma edge_abort (w : World) (gpio level tick : Z) :
  interval w tick <= 10000 -> _in_code (self w) = true ->
  0 <= _bits (self w) ->
  ~ valid_pulse (interval w tick) ->
  _rising_edge w gpio level tick =
  mkWorld (set_in_code false
             (set_code (2 * _code (self w))
                (set_bits (_bits (self w) + 1)
                   (set_last_edge_tick tick (self w)))))
          (trace w).
Proof.
  intros Hshort Hin Hbits Hbad. edge_open w tick i s tr.
  destruct (Z.gtb_spec i 10000); [lia|]. rewrite Hin.
  destruct (Z.geb_spec (_bits s + 1) 1); [|lia].
  destruct ((i >=? 60) && (i <=? 150)) eqn:E.
  { apply valid_pulse_test in E. contradiction. }
  edge_close.
Qed.

(** The fortieth valid pulse hands the accumulator to [_decode_dhtxx],
    once, and ends the frame. *)
Lemma edge_complete (w : World) (gpio level tick : Z) :
  interval w tick <= 10000 -> _in_code (self w) = true ->
  _bits (self w) + 1 = 40 ->
  valid_pulse (interval w tick) ->
  _rising_edge w gpio level tick =
  mkWorld (set_in_code false
             (_decode_dhtxx
                (set_code (2 * _code (self w) + classify (interval w tick))
                   (set_bits 40 (set_last_edge_tick tick (self w))))))
          (trace w ++
           [Decode (2 * _code (self w) + classify (interval w tick))]).
Proof.
  intros Hshort Hin H40 Hvalid. edge_open w tick i s tr.
  destruct (Z.gtb_spec i 10000); [lia|]. rewrite Hin, H40.
  change (40 >=? 1) with true. cbv iota.
  apply valid_pulse_test in Hvalid. rewrite Hvalid. unfold classify.
  destruct (i >? 100); edge_simpl; rewrite Hin, H40;
    change (40 =? 40) with true; cbv iota;
    unfold update, emit, set_code, set_bits, set_in_code, set_last_edge_tick;
    edge_simpl; rewrite ?shiftl_1, ?Z.add_0_r, ?H40; reflexivity.
Qed.

(** The handler does what [on_rising_edge] describes, at every edge and in
    every state. *)
Lemma rising_edge_step (w : World) (gpio level tick : Z) :
  on_rising_edge w tick (_rising_edge w gpio level tick).
Proof.
  destruct (Z.le_gt_cases (interval w tick) 10000) as [Hshort | Hgap].
  2:{ rewrite edge_restart by lia. apply start_frame. lia. }
  destruct (_in_code (self w)) eqn:Hin.
  2:{ rewrite edge_idle by assumption. apply not_in_frame; assumption. }
  destruct (Z.lt_ge_cases (_bits (self w)) 0) as [Hneg | Hpos].
  { rewrite edge_discard by assumption. apply discard_slot; assumption. }
  assert (Hdec : valid_pulse (interval w tick) \/
                 ~ valid_pulse (interval w tick))
    by (unfold valid_pulse; lia).
  destruct Hdec as [Hvalid | Hbad].
  2:{ rewrite edge_abort by assumption. apply timing_violation; assumption. }
  destruct (Z.eq_dec (_bits (self w) + 1) 40) as [H40 | Hnot40].
  - rewrite edge_complete by assumption. apply frame_complete; assumption.
  - rewrite edge_bit by assumption. apply data_bit; assumption.
Qed.

(** [_decode_dhtxx] touches the status, the reading and [_new_data] only. *)
Lemma decode_preserves (s : Sensor) :
  _gpio (_decode_dhtxx s) = _gpio s /\
  _model (_decode_dhtxx s) = _model s /\
  _callback (_decode_dhtxx s) = _callback s /\
  _in_code (_decode_dhtxx s) = _in_code s /\
  _bits (_decode_dhtxx s) = _bits s /\
  _code (_decode_dhtxx s) = _code s /\
  _timestamp (_decode_dhtxx s) = _timestamp s /\
  _last_edge_tick (_decode_dhtxx s) = _last_edge_tick s /\
  _new_data (_decode_dhtxx s) = true.
Proof.
  assert (Hdec : checksum_ok (_code s) \/ ~ checksum_ok (_code s))
    by (unfold checksum_ok; lia).
  destruct Hdec as [Hok | Hbad].
  - destruct (decode_checksum_ok s Hok) as [[[[|] t] h] ->];
      repeat split; reflexivity.
  - rewrite decode_bad_checksum by exact Hbad. repeat split; reflexivity.
Qed.

Lemma edge_last_tick (w : World) (gpio level tick : Z) :
  _last_edge_tick (self (_rising_edge w gpio level tick)) = tick.
Proof.
  destruct (rising_edge_step w gpio level tick); try reflexivity.
  edge_simpl.
  destruct (decode_preserves
    (set_code (2 * _code (self w) + classify (interval w tick))
       (set_bits 40 (set_last_edge_tick tick (self w)))))
    as (_ & _ & _ & _ & _ & _ & _ & Hlast & _).
  exact Hlast.
Qed.

(** The configuration of the object never changes at an edge. *)
Lemma edge_config (w : World) (gpio level tick : Z) :
  _gpio (self (_rising_edge w gpio level tick)) = _gpio (self w) /\
  _model (self (_rising_edge w gpio level tick)) = _model (self w) /\
  _callback (self (_rising_edge w gpio level tick)) = _callback (self w).
Proof.
  destruct (rising_edge_step w gpio level tick);
    try (repeat split; reflexivity).
  edge_simpl. destruct (decode_preserves
    (set_code (2 * _code (self w) + classify (interval w tick))
       (set_bits 40 (set_last_edge_tick tick (self w)))))
    as (Hg & Hm & Hc & _).
  rewrite Hg, Hm, Hc. repeat split; reflexivity.
Qed.

(** ** Streams of edges *)

Lemma deliver_cons (tick : Z) (ticks : list Z) (w : World) :
  deliver (tick :: ticks) w =
  deliver ticks (_rising_edge w (_gpio (self w)) 1 tick).
Proof. reflexivity. Qed.

Lemma deliver_app (ticks ticks' : list Z) (w : World) :
  deliver (ticks ++ ticks') w = deliver ticks' (deliver ticks w).
Proof. unfold deliver. apply fold_left_app. Qed.

Lemma last_nonempty (l : list Z) : forall x d d',
  List.last (x :: l) d = List.last (x :: l) d'.
Proof.
  induction l as [|y l IH]; intros x d d'; [reflexivity|].
  change (List.last (y :: l) d = List.last (y :: l) d'). apply IH.
Qed.

Lemma last_cons (l : list Z) (x d : Z) :
  List.last (x :: l) d = List.last l x.
Proof.
  destruct l as [|y l]; [reflexivity|].
  change (List.last (y :: l) d = List.last (y :: l) x). apply last_nonempty.
Qed.

Lemma intervals_app (ticks ticks' : list Z) : forall last,
  intervals last (ticks ++ ticks') =
  intervals last ticks ++ intervals (List.last ticks last) ticks'.
Proof.
  induction ticks as [|t ticks IH]; intros last; [reflexivity|].
  cbn [app intervals]. rewrite IH, last_cons. reflexivity.
Qed.

Lemma intervals_length (ticks : list Z) : forall last,
  length (intervals last ticks) = length ticks.
Proof.
  induction ticks as [|t ticks IH]; intros last; [reflexivity|].
  cbn. rewrite IH. reflexivity.
Qed.

Lemma deliver_last_tick (ticks : list Z) : forall w,
  _last_edge_tick (self (deliver ticks w)) =
  List.last ticks (_last_edge_tick (self w)).
Proof.
  induction ticks as [|t ticks IH]; intros w; [reflexivity|].
  rewrite deliver_cons, IH, edge_last_tick, last_cons. reflexivity.
Qed.

Lemma shift_in_app (bits bits' : list Z) (acc : Z) :
  shift_in acc (bits ++ bits') = shift_in (shift_in acc bits) bits'.
Proof. unfold shift_in. apply fold_left_app. Qed.

(** Valid pulses short of the fortieth accumulate their bits and hand
    nothing on. *)
Lemma deliver_pulses (ticks : list Z) : forall w,
  _in_code (self w) = true -> 0 <= _bits (self w) ->
  Forall valid_pulse (intervals (_last_edge_tick (self w)) ticks) ->
  _bits (self w) + Z.of_nat (length ticks) < 40 ->
  _in_code (self (deliver ticks w)) = true /\
  _bits (self (deliver ticks w)) = _bits (self w) + Z.of_nat (length ticks) /\
  _code (self (deliver ticks w)) =
    shift_in (_code (self w))
             (map classify (intervals (_last_edge_tick (self w)) ticks)) /\
  trace (deliver ticks w) = trace w.
Proof.
  induction ticks as [|t ticks IH]; intros w Hin Hbits Hvalid Hlen.
  { cbn. repeat split; try reflexivity; try assumption. lia. }
  cbn [intervals] in Hvalid. inversion Hvalid as [|i ivs Hi Hrest]; subst.
  cbn [length] in Hlen. rewrite Nat2Z.inj_succ in Hlen.
  rewrite deliver_cons.
  assert (Hstep : _rising_edge w (_gpio (self w)) 1 t =
                  mkWorld
                    (set_code (2 * _code (self w) + classify (interval w t))
                       (set_bits (_bits (self w) + 1)
                          (set_last_edge_tick t (self w))))
                    (trace w)).
  { apply edge_bit; try assumption; unfold interval, valid_pulse in *; lia. }
  rewrite Hstep. clear Hstep.
  set (w1 := mkWorld _ (trace w)).
  assert (Hw1 : _in_code (self w1) = true /\
                _bits (self w1) = _bits (self w) + 1 /\
                _code (self w1) =
                  2 * _code (self w) + classify (interval w t) /\
                _last_edge_tick (self w1) = t /\
                trace w1 = trace w)
    by (repeat split; try reflexivity; exact Hin).
  clearbody w1. destruct Hw1 as (Hin1 & Hbits1 & Hcode1 & Hlast1 & Htrace1).
  destruct (IH w1) as (Hin' & Hbits' & Hcode' & Htrace').
  - exact Hin1.
  - lia.
  - rewrite Hlast1. exact Hrest.
  - lia.
  - split; [exact Hin'|]. split; [|split].
    + rewrite Hbits', Hbits1. cbn [length]. rewrite Nat2Z.inj_succ. lia.
    + rewrite Hcode', Hcode1, Hlast1. reflexivity.
    + rewrite Htrace'. exact Htrace1.
Qed.

(** The gap and the two discard slots leave an empty accumulator ready for
    the first data bit. *)
Lemma deliver_header (w : World) (t0 t1 t2 : Z) :
  interval w t0 > 10000 -> tickDiff t0 t1 <= 10000 ->
  tickDiff t1 t2 <= 10000 ->
  _in_code (self (deliver [t0; t1; t2] w)) = true /\
  _bits (self (deliver [t0; t1; t2] w)) = 0 /\
  _code (self (deliver [t0; t1; t2] w)) = 0 /\
  _last_edge_tick (self (deliver [t0; t1; t2] w)) = t2 /\
  trace (deliver [t0; t1; t2] w) = trace w.
Proof.
  intros Hgap Hd1 Hd2. rewrite !deliver_cons. cbn [deliver fold_left].
  rewrite (edge_restart w) by exact Hgap.
  set (w1 := mkWorld _ (trace w)).
  assert (Hw1 : _in_code (self w1) = true /\ _bits (self w1) = -2 /\
                _code (self w1) = 0 /\ _last_edge_tick (self w1) = t0 /\
                trace w1 = trace w) by (repeat split; reflexivity).
  clearbody w1. destruct Hw1 as (Hin1 & Hbits1 & Hcode1 & Hlast1 & Htrace1).
  rewrite (edge_discard w1)
    by (unfold interval; rewrite ?Hlast1; try assumption; lia).
  set (w2 := mkWorld _ (trace w1)).
  assert (Hw2 : _in_code (self w2) = true /\ _bits (self w2) = -1 /\
                _code (self w2) = 0 /\ _last_edge_tick (self w2) = t1 /\
                trace w2 = trace w).
  { unfold w2. cbn. rewrite Hbits1.
    repeat split; try assumption; reflexivity. }
  clearbody w2. destruct Hw2 as (Hin2 & Hbits2 & Hcode2 & Hlast2 & Htrace2).
  rewrite (edge_discard w2)
    by (unfold interval; rewrite ?Hlast2; try assumption; lia).
  cbn. rewrite Hbits2. repeat split; try assumption; reflexivity.
Qed.

(** A long gap, two discard slots and forty valid pulses: the accumulator
    is the big-endian value of the forty bits and is handed on once. *)
Lemma deliver_frame (w : World) (ticks : list Z) (gap d1 d2 : Z)
    (data : list Z) :
  intervals (_last_edge_tick (self w)) ticks = gap :: d1 :: d2 :: data ->
  gap > 10000 -> d1 <= 10000 -> d2 <= 10000 ->
  length data = 40%nat -> Forall valid_pulse data ->
  trace (deliver ticks w) =
    trace w ++ [Decode (bits_value (map classify data))] /\
  _code (self (deliver ticks w)) = bits_value (map classify data) /\
  _bits (self (deliver ticks w)) = 40 /\
  _in_code (self (deliver ticks w)) = false /\
  _new_data (self (deliver ticks w)) = true.
Proof.
  intros Hivs Hgap Hd1 Hd2 Hlen Hvalid.
  destruct ticks as [|t0 [|t1 [|t2 rest]]]; try discriminate.
  cbn [intervals] in Hivs. injection Hivs as Hg H1 H2 Hdata.
  assert (Hrest : length rest = 40%nat)
    by (rewrite <- (intervals_length rest t2), Hdata; exact Hlen).
  destruct (exists_last (l := rest)) as (body & tl & ->);
    [intros ->; discriminate|].
  rewrite length_app in Hrest. cbn [length] in Hrest.
  rewrite intervals_app in Hdata. cbn [intervals] in Hdata.
  subst data. apply Forall_app in Hvalid. destruct Hvalid as [Hbody Htl].
  inversion Htl as [|i l Hi _]; subst i l.
  change (t0 :: t1 :: t2 :: body ++ [tl])
    with ([t0; t1; t2] ++ body ++ [tl]).
  rewrite !deliver_app.
  destruct (deliver_header w t0 t1 t2)
    as (Hin3 & Hbits3 & Hcode3 & Hlast3 & Htrace3);
    [unfold interval; lia | lia | lia |].
  set (w3 := deliver [t0; t1; t2] w) in *. clearbody w3.
  destruct (deliver_pulses body w3)
    as (Hin4 & Hbits4 & Hcode4 & Htrace4);
    [exact Hin3 | lia | rewrite Hlast3; exact Hbody | lia |].
  pose proof (deliver_last_tick body w3) as Hlast4.
  rewrite Hlast3 in Hlast4, Hcode4. rewrite Hbits3 in Hbits4.
  rewrite Hcode3 in Hcode4.
  set (w4 := deliver body w3) in *. clearbody w4.
  cbn [deliver fold_left].
  assert (Hi' : interval w4 tl = tickDiff (List.last body t2) tl)
    by (unfold interval; rewrite Hlast4; reflexivity).
  rewrite (edge_complete w4);
    [| rewrite Hi'; unfold valid_pulse in Hi; lia | exact Hin4 | lia
     | rewrite Hi'; exact Hi].
  rewrite Hi', Hcode4. unfold bits_value.
  rewrite map_app, shift_in_app. cbn [map].
  change (shift_in ?a [?b]) with (2 * a + b).
  edge_simpl.
  destruct (decode_preserves
    (set_code (2 * shift_in 0 (map classify (intervals t2 body))
               + classify (tickDiff (List.last body t2) tl))
       (set_bits 40 (set_last_edge_tick tl (self w4)))))
    as (_ & _ & _ & _ & Hb & Hc & _ & _ & Hn).
  rewrite Hb, Hc, Hn, Htrace4, Htrace3. repeat split; reflexivity.
Qed.

(** A pulse of the wrong width in the middle of a frame: the frame is
    dropped and nothing is handed on. *)
Lemma deliver_aborted (w : World) (ticks : list Z) (gap d1 d2 bad : Z)
    (data : list Z) :
  intervals (_last_edge_tick (self w)) ticks
    = gap :: d1 :: d2 :: data ++ [bad] ->
  gap > 10000 -> d1 <= 10000 -> d2 <= 10000 ->
  (length data < 40)%nat -> Forall valid_pulse data ->
  bad <= 10000 -> ~ valid_pulse bad ->
  _in_code (self (deliver ticks w)) = false /\
  trace (deliver ticks w) = trace w.
Proof.
  intros Hivs Hgap Hd1 Hd2 Hlen Hvalid Hshort Hbad.
  destruct ticks as [|t0 [|t1 [|t2 rest]]]; try discriminate.
  cbn [intervals] in Hivs. injection Hivs as Hg H1 H2 Hdata.
  destruct (exists_last (l := rest)) as (body & tl & ->).
  { intros ->. destruct data; discriminate. }
  rewrite intervals_app in Hdata. cbn [intervals] in Hdata.
  apply app_inj_tail in Hdata. destruct Hdata as [Hbody Htl].
  subst data bad.
  rewrite intervals_length in Hlen.
  change (t0 :: t1 :: t2 :: body ++ [tl])
    with ([t0; t1; t2] ++ body ++ [tl]).
  rewrite !deliver_app.
  destruct (deliver_header w t0 t1 t2)
    as (Hin3 & Hbits3 & Hcode3 & Hlast3 & Htrace3);
    [unfold interval; lia | lia | lia |].
  set (w3 := deliver [t0; t1; t2] w) in *. clearbody w3.
  destruct (deliver_pulses body w3)
    as (Hin4 & Hbits4 & Hcode4 & Htrace4);
    [exact Hin3 | lia | rewrite Hlast3; exact Hvalid | lia |].
  pose proof (deliver_last_tick body w3) as Hlast4.
  rewrite Hlast3 in Hlast4.
  set (w4 := deliver body w3) in *. clearbody w4.
  cbn [deliver fold_left].
  assert (Hi' : interval w4 tl = tickDiff (List.last body t2) tl)
    by (unfold interval; rewrite Hlast4; reflexivity).
  rewrite (edge_abort w4);
    [| rewrite Hi'; exact Hshort | exact Hin4 | lia
     | rewrite Hi'; exact Hbad].
  cbn [self trace]. split; [reflexivity|].
  rewrite Htrace4. exact Htrace3.
Qed.

(** C1: at every edge, in every state.  An interval above 10000 starts a
    frame ([_in_code] true, [_bits] -2, [_code] 0), dropping whatever was in
    progress without a trace.  Inside a frame the two intervals that follow
    only count.  Each later interval in [60, 150] shifts the accumulator
    left and adds its bit, which is 1 exactly above 100; an interval outside
    [60, 150] ends the frame with nothing handed on, and a later long gap
    starts a fresh one.  The fortieth bit hands the accumulator to
    [_decode_dhtxx], once.  Over a whole stream made of a long gap, two
    discard slots and forty valid pulses, what is handed on is the
    big-endian value of the forty bits. *)
Theorem frame_decoding :
  (forall w gpio level tick,
     interval w tick > 10000 ->
     _in_code (self (_rising_edge w gpio level tick)) = true /\
     _bits (self (_rising_edge w gpio level tick)) = -2 /\
     _code (self (_rising_edge w gpio level tick)) = 0 /\
     trace (_rising_edge w gpio level tick) = trace w) /\
  (forall w gpio level tick,
     interval w tick <= 10000 -> _in_code (self w) = true ->
     _bits (self w) < 0 ->
     _in_code (self (_rising_edge w gpio level tick)) = true /\
     _bits (self (_rising_edge w gpio level tick)) = _bits (self w) + 1 /\
     _code (self (_rising_edge w gpio level tick)) = _code (self w) /\
     trace (_rising_edge w gpio level tick) = trace w) /\
  (forall w gpio level tick,
     _in_code (self w) = true -> 0 <= _bits (self w) < 39 ->
     valid_pulse (interval w tick) ->
     _in_code (self (_rising_edge w gpio level tick)) = true /\
     _bits (self (_rising_edge w gpio level tick)) = _bits (self w) + 1 /\
     _code (self (_rising_edge w gpio level tick)) =
       Z.shiftl (_code (self w)) 1 + classify (interval w tick) /\
     (classify (interval w tick) = 1 <-> interval w tick > 100) /\
     (classify (interval w tick) = 0 <-> interval w tick <= 100) /\
     trace (_rising_edge w gpio level tick) = trace w) /\
  (forall w gpio level tick,
     interval w tick <= 10000 -> _in_code (self w) = true ->
     0 <= _bits (self w) -> ~ valid_pulse (interval w tick) ->
     _in_code (self (_rising_edge w gpio level tick)) = false /\
     trace (_rising_edge w gpio level tick) = trace w /\
     forall gpio' level' tick',
       interval (_rising_edge w gpio level tick) tick' > 10000 ->
       let w' := _rising_edge (_rising_edge w gpio level tick)
                              gpio' level' tick' in
       _in_code (self w') = true /\ _bits (self w') = -2 /\
       _code (self w') = 0 /\ trace w' = trace w) /\
  (forall w gpio level tick,
     _in_code (self w) = true -> _bits (self w) = 39 ->
     valid_pulse (interval w tick) ->
     trace (_rising_edge w gpio level tick) =
       trace w ++
       [Decode (Z.shiftl (_code (self w)) 1 + classify (interval w tick))] /\
     _in_code (self (_rising_edge w gpio level tick)) = false) /\
  (forall w ticks gap d1 d2 data,
     intervals (_last_edge_tick (self w)) ticks = gap :: d1 :: d2 :: data ->
     gap > 10000 -> d1 <= 10000 -> d2 <= 10000 ->
     length data = 40%nat -> Forall valid_pulse data ->
     trace (deliver ticks w) =
       trace w ++ [Decode (bits_value (map classify data))] /\
     _code (self (deliver ticks w)) = bits_value (map classify data) /\
     _in_code (self (deliver ticks w)) = false) /\
  (forall w ticks gap d1 d2 bad data,
     intervals (_last_edge_tick (self w)) ticks
       = gap :: d1 :: d2 :: data ++ [bad] ->
     gap > 10000 -> d1 <= 10000 -> d2 <= 10000 ->
     (length data < 40)%nat -> Forall valid_pulse data ->
     bad <= 10000 -> ~ valid_pulse bad ->
     _in_code (self (deliver ticks w)) = false /\
     trace (deliver ticks w) = trace w).
Proof.
  split; [|split; [|split; [|split; [|split; [|split]]]]].
  - intros w gpio level tick Hgap.
    rewrite edge_restart by exact Hgap. repeat split; reflexivity.
  - intros w gpio level tick Hshort Hin Hbits.
    rewrite edge_discard by assumption. repeat split; try reflexivity.
    exact Hin.
  - intros w gpio level tick Hin Hbits Hvalid.
    rewrite edge_bit; try assumption; try (unfold valid_pulse in *; lia).
    cbn [self trace]. rewrite shiftl_1.
    destruct (classify_bit (interval w tick)) as [H1 H0].
    repeat split; try reflexivity; try apply H1; try apply H0. exact Hin.
  - intros w gpio level tick Hshort Hin Hbits Hbad.
    rewrite edge_abort by assumption. cbn [self trace].
    split; [reflexivity|]. split; [reflexivity|].
    intros gpio' level' tick' Hgap.
    rewrite edge_restart by exact Hgap. repeat split; reflexivity.
  - intros w gpio level tick Hin Hbits Hvalid.
    rewrite edge_complete; try assumption; try (unfold valid_pulse in *; lia).
    cbn [self trace]. rewrite shiftl_1. split; reflexivity.
  - intros w ticks gap d1 d2 data Hivs Hgap Hd1 Hd2 Hlen Hvalid.
    destruct (deliver_frame w ticks gap d1 d2 data)
      as (Htrace & Hcode & _ & Hin & _); try assumption.
    repeat split; assumption.
  - intros w ticks gap d1 d2 bad data. apply deliver_aborted.
Qed.

Lemma valid_pulses_check (l : list Z) :
  forallb (fun i => (i >=? 60) && (i <=? 150)) l = true ->
  Forall valid_pulse l.
Proof.
  intros H. apply Forall_forall. intros i Hi.
  rewrite forallb_forall in H. apply valid_pulse_test, H, Hi.
Defined.

(** The sample transmission is decoded to the word [03 22 00 EA 0F]; cut
    short by a pulse of 200 microseconds after two bits, it is dropped. *)
Lemma frame_decoding_witness :
  trace (deliver sample_ticks (sample_world DHTAUTO None))
    = [Decode (frame_of_bytes 15 234 0 34 3)] /\
  (_in_code (self (deliver (ticks_after 10000 [15000; 80; 80; 70; 130; 200])
                           (sample_world DHTAUTO None))) = false /\
   trace (deliver (ticks_after 10000 [15000; 80; 80; 70; 130; 200])
                  (sample_world DHTAUTO None)) = []).
Proof.
  destruct frame_decoding as (_ & _ & _ & _ & _ & Hframe & Habort).
  split.
  - destruct (Hframe (sample_world DHTAUTO None) sample_ticks
                     15000 80 80 sample_data) as (Htrace & _);
      [reflexivity | lia | lia | lia | reflexivity
      | apply valid_pulses_check; reflexivity |].
    exact Htrace.
  - apply (Habort (sample_world DHTAUTO None)
                  (ticks_after 10000 [15000; 80; 80; 70; 130; 200])
                  15000 80 80 200 [70; 130]);
      [reflexivity | lia | lia | lia | cbn; lia
      | apply valid_pulses_check; reflexivity | lia
      | unfold valid_pulse; lia].
Defined.

(** ** Order of the bits and bytes of a frame *)

Lemma shift_in_acc (bits : list Z) : forall acc,
  shift_in acc bits =
  acc * 2 ^ Z.of_nat (length bits) + shift_in 0 bits.
Proof.
  induction bits as [|b bits IH]; intros acc.
  { cbn. lia. }
  change (shift_in acc (b :: bits)) with (shift_in (2 * acc + b) bits).
  change (shift_in 0 (b :: bits)) with (shift_in (2 * 0 + b) bits).
  rewrite (IH (2 * acc + b)), (IH (2 * 0 + b)).
  cbn [length]. rewrite Nat2Z.inj_succ, Z.pow_succ_r by lia. ring.
Qed.

Lemma bits_value_app (bits bits' : list Z) :
  bits_value (bits ++ bits') =
  bits_value bits * 2 ^ Z.of_nat (length bits') + bits_value bits'.
Proof.
  unfold bits_value. rewrite shift_in_app. apply shift_in_acc.
Qed.

Lemma bits_value_bound (bits : list Z) :
  Forall is_bit bits ->
  0 <= bits_value bits < 2 ^ Z.of_nat (length bits).
Proof.
  induction bits as [|b bits IH] using rev_ind; intros Hbits.
  { cbn. lia. }
  apply Forall_app in Hbits. destruct Hbits as [Hinit Hb].
  inversion Hb as [|x l Hx _]; subst.
  rewrite bits_value_app, length_app. cbn [length].
  rewrite Nat2Z.inj_add, Z.pow_add_r by lia.
  specialize (IH Hinit). change (bits_value [b]) with (2 * 0 + b).
  change (2 ^ Z.of_nat 1) with 2. unfold is_bit in Hx. nia.
Qed.

Lemma classify_is_bit (ivs : list Z) : Forall is_bit (map classify ivs).
Proof.
  induction ivs as [|i ivs IH]; constructor; [|exact IH].
  unfold is_bit, classify. destruct (i >? 100); auto.
Qed.

Lemma split_octets (bits : list Z) :
  length bits = 40%nat ->
  bits = octet 0 bits ++ octet 1 bits ++ octet 2 bits
                      ++ octet 3 bits ++ octet 4 bits.
Proof.
  intros Hlen.
  do 41 (destruct bits as [|? bits]; try discriminate). reflexivity.
Qed.

Lemma octet_length (k : nat) (bits : list Z) :
  length bits = 40%nat -> (k < 5)%nat -> length (octet k bits) = 8%nat.
Proof.
  intros Hlen Hk. unfold octet. rewrite length_firstn, length_skipn. lia.
Qed.

Lemma octet_bits (k : nat) (bits : list Z) :
  Forall is_bit bits -> Forall is_bit (octet k bits).
Proof.
  intros H. unfold octet.
  rewrite <- (firstn_skipn (8 * k) bits) in H.
  apply Forall_app in H. destruct H as [_ H].
  rewrite <- (firstn_skipn 8 (skipn (8 * k) bits)) in H.
  apply Forall_app in H. apply H.
Qed.

Lemma octet_byte (k : nat) (bits : list Z) :
  length bits = 40%nat -> (k < 5)%nat -> Forall is_bit bits ->
  is_byte (bits_value (octet k bits)).
Proof.
  intros Hlen Hk Hbits.
  pose proof (bits_value_bound (octet k bits) (octet_bits k bits Hbits)) as H.
  rewrite octet_length in H by assumption. exact H.
Qed.

(** Forty bits make the frame whose highest byte is the octet sent first
    and whose lowest byte is the octet sent last. *)
Lemma frame_octets (bits : list Z) :
  length bits = 40%nat ->
  bits_value bits =
  frame_of_bytes (bits_value (octet 4 bits)) (bits_value (octet 3 bits))
                 (bits_value (octet 2 bits)) (bits_value (octet 1 bits))
                 (bits_value (octet 0 bits)).
Proof.
  intros Hlen. rewrite (split_octets bits Hlen) at 1.
  rewrite !bits_value_app, !length_app, !octet_length by (assumption || lia).
  unfold frame_of_bytes. cbn [Nat.add Z.of_nat Pos.of_succ_nat Pos.succ].
  ring.
Qed.

(** C6, as the code has it: of a completed frame the checksum byte [b0] is
    the least-significant byte of the accumulator and is the byte sent last;
    the byte sent first is [b4], the accumulator's highest.  The last eight
    bits shifted in form [b0], the first eight form [b4]. *)
Theorem checksum_byte_sent_last (w : World) (ticks : list Z)
    (gap d1 d2 : Z) (data : list Z) :
  intervals (_last_edge_tick (self w)) ticks = gap :: d1 :: d2 :: data ->
  gap > 10000 -> d1 <= 10000 -> d2 <= 10000 ->
  length data = 40%nat -> Forall valid_pulse data ->
  let code := _code (self (deliver ticks w)) in
  let bits := map classify data in
  trace (deliver ticks w) = trace w ++ [Decode code] /\
  0 <= code < 2 ^ 40 /\
  byte0 code = code mod 256 /\
  byte0 code = bits_value (octet 4 bits) /\
  byte1 code = bits_value (octet 3 bits) /\
  byte2 code = bits_value (octet 2 bits) /\
  byte3 code = bits_value (octet 1 bits) /\
  byte4 code = bits_value (octet 0 bits).
Proof.
  intros Hivs Hgap Hd1 Hd2 Hlen Hvalid code bits.
  destruct (deliver_frame w ticks gap d1 d2 data)
    as (Htrace & Hcode & _); try assumption.
  fold code bits in Hcode, Htrace.
  assert (Hbits : length bits = 40%nat)
    by (unfold bits; rewrite length_map; exact Hlen).
  pose proof (classify_is_bit data) as Hbit. fold bits in Hbit.
  pose proof (frame_octets bits Hbits) as Hframe.
  assert (H0 := octet_byte 0 bits Hbits ltac:(lia) Hbit).
  assert (H1 := octet_byte 1 bits Hbits ltac:(lia) Hbit).
  assert (H2 := octet_byte 2 bits Hbits ltac:(lia) Hbit).
  assert (H3 := octet_byte 3 bits Hbits ltac:(lia) Hbit).
  assert (H4 := octet_byte 4 bits Hbits ltac:(lia) Hbit).
  split; [rewrite Htrace, Hcode; reflexivity|].
  rewrite Hcode, Hframe.
  split; [apply frame_40_bits; assumption|].
  split; [unfold byte0; apply land_255_mod|].
  split; [apply byte0_frame; assumption|].
  split; [apply byte1_frame; assumption|].
  split; [apply byte2_frame; assumption|].
  split; [apply byte3_frame; assumption|].
  apply byte4_frame; assumption.
Qed.

Lemma checksum_byte_sent_last_witness :
  byte0 (_code (self (deliver sample_ticks (sample_world DHTAUTO None))))
    = bits_value (octet 4 (map classify sample_data)) /\
  byte4 (_code (self (deliver sample_ticks (sample_world DHTAUTO None))))
    = bits_value (octet 0 (map classify sample_data)).
Proof.
  destruct (checksum_byte_sent_last (sample_world DHTAUTO None) sample_ticks
              15000 80 80 sample_data)
    as (_ & _ & _ & H0 & _ & _ & _ & H4);
    [reflexivity | lia | lia | lia | reflexivity
    | apply valid_pulses_check; reflexivity |].
  split; [exact H0 | exact H4].
Defined.

(** C6 as stated fails: in the sample transmission the first eight bits
    sent are [00000011], the high byte of the humidity, while [b0] is the
    checksum [0x0F], sent last. *)
Lemma first_octet_is_not_checksum :
  ~ (forall (w : World) (ticks : list Z) (gap d1 d2 : Z) (data : list Z),
       intervals (_last_edge_tick (self w)) ticks
         = gap :: d1 :: d2 :: data ->
       gap > 10000 -> d1 <= 10000 -> d2 <= 10000 ->
       length data = 40%nat -> Forall valid_pulse data ->
       byte0 (_code (self (deliver ticks w)))
         = bits_value (octet 0 (map classify data))).
Proof.
  intros Hclaim.
  specialize (Hclaim (sample_world DHTAUTO None) sample_ticks
                     15000 80 80 sample_data).
  assert (H : byte0 (_code (self (deliver sample_ticks
                                          (sample_world DHTAUTO None))))
              = bits_value (octet 0 (map classify sample_data))).
  { apply Hclaim;
      [reflexivity | lia | lia | lia | reflexivity
      | apply valid_pulses_check; reflexivity]. }
  vm_compute in H. discriminate H.
Qed.

(** ** The invariant of the edge handler *)

Lemma accumulating_idle (ivs : list Z) (s : Sensor) :
  _in_code s = false -> accumulating ivs s.
Proof. intros Hidle Hin. congruence. Qed.

(** Every edge keeps the invariant, and hands the accumulator on only as
    the value of the forty valid pulses that end a frame. *)
Lemma accumulating_step (ivs : list Z) (w : World) (gpio level tick : Z) :
  accumulating ivs (self w) ->
  accumulating (ivs ++ [interval w tick])
               (self (_rising_edge w gpio level tick)) /\
  (trace (_rising_edge w gpio level tick) = trace w \/
   exists hd gap d1 d2 data,
     ivs ++ [interval w tick] = hd ++ gap :: d1 :: d2 :: data /\
     gap > 10000 /\ d1 <= 10000 /\ d2 <= 10000 /\
     length data = 40%nat /\ Forall valid_pulse data /\
     trace (_rising_edge w gpio level tick) =
       trace w ++ [Decode (bits_value (map classify data))] /\
     _bits (self (_rising_edge w gpio level tick)) = 40).
Proof.
  intros Hacc.
  destruct (rising_edge_step w gpio level tick)
    as [Hgap | Hshort Hidle | Hshort Hin Hneg | Hshort Hin Hpos Hnot40 Hvalid
       | Hshort Hin Hpos Hbad | Hshort Hin H40 Hvalid]; cbn [self trace].
  - split; [|left; reflexivity]. intros _.
    exists ivs, (interval w tick), []. cbn.
    repeat split; try reflexivity; try lia. constructor. constructor.
  - split; [|left; reflexivity]. apply accumulating_idle. exact Hidle.
  - split; [|left; reflexivity]. intros _.
    destruct (Hacc Hin) as (hd & gap & rest & -> & Hgap & Hle & Hbits & Hlt
                            & Hdata & Hcode).
    exists hd, gap, (rest ++ [interval w tick]).
    rewrite <- app_assoc. cbn [app].
    destruct rest as [|d1 [|d2 rest]]; cbn [length] in Hbits; try lia;
      cbn [app skipn length map _bits _code set_bits set_last_edge_tick]
        in *;
      repeat split; try reflexivity; try assumption; try lia;
      repeat constructor; try lia.
    inversion Hle; assumption.
  - split; [|left; reflexivity]. intros _.
    destruct (Hacc Hin) as (hd & gap & rest & -> & Hgap & Hle & Hbits & Hlt
                            & Hdata & Hcode).
    exists hd, gap, (rest ++ [interval w tick]).
    rewrite <- app_assoc. cbn [app].
    destruct rest as [|d1 [|d2 rest]]; cbn [length] in Hbits; try lia.
    cbn [app skipn length map _bits _code set_code set_bits
         set_last_edge_tick] in *.
    rewrite map_app, bits_value_app, <- Hcode. cbn [map length].
    rewrite length_app. cbn [length].
    repeat split; try reflexivity; try assumption; try lia.
    + apply (proj2 (Forall_app _ (d1 :: d2 :: rest) [interval w tick])).
      split; [exact Hle|]. constructor; [lia | constructor].
    + apply Forall_app. split; [exact Hdata|].
      constructor; [exact Hvalid | constructor].
    + change (bits_value [classify (interval w tick)])
        with (2 * 0 + classify (interval w tick)).
      change (2 ^ Z.of_nat 1) with 2. lia.
  - split; [|left; reflexivity]. apply accumulating_idle. reflexivity.
  - split; [apply accumulating_idle; reflexivity|]. right.
    destruct (Hacc Hin) as (hd & gap & rest & -> & Hgap & Hle & Hbits & Hlt
                            & Hdata & Hcode).
    destruct rest as [|d1 [|d2 rest]]; cbn [length] in Hbits; try lia.
    cbn [skipn] in Hdata, Hcode.
    exists hd, gap, d1, d2, (rest ++ [interval w tick]).
    rewrite <- app_assoc. cbn [app].
    inversion Hle as [|? ? Hd1 Hle']; subst.
    inversion Hle' as [|? ? Hd2 _]; subst.
    rewrite map_app, bits_value_app, <- Hcode, length_app.
    cbn [map length].
    repeat split; try reflexivity; try assumption; try lia.
    + apply Forall_app. split; [exact Hdata|].
      constructor; [exact Hvalid | constructor].
    + change (bits_value [classify (interval w tick)])
        with (2 * 0 + classify (interval w tick)).
      change (2 ^ Z.of_nat 1) with 2.
      do 3 f_equal. lia.
    + edge_simpl. apply decode_preserves.
Qed.

Lemma accumulating_run (ticks : list Z) : forall w ivs,
  accumulating ivs (self w) ->
  accumulating (ivs ++ intervals (_last_edge_tick (self w)) ticks)
               (self (deliver ticks w)).
Proof.
  induction ticks as [|t ticks IH]; intros w ivs Hacc.
  { cbn. rewrite app_nil_r. exact Hacc. }
  rewrite deliver_cons. cbn [intervals].
  change (ivs ++ tickDiff (_last_edge_tick (self w)) t
              :: intervals t ticks)
    with (ivs ++ [interval w t] ++ intervals t ticks).
  rewrite app_assoc.
  rewrite <- (edge_last_tick w (_gpio (self w)) 1 t) at 2.
  apply IH. apply accumulating_step. exact Hacc.
Qed.

(** C7: the invariant [accumulating] holds of a new sensor and is kept by
    every edge.  So on a sensor driven by any stream of edges since its
    creation, an accumulator is handed to [_decode_dhtxx] only with [_bits]
    at 40 and only as the value of the last forty intervals, all of them
    valid pulses, that follow a long gap and two discard slots; outside a
    frame, and at a long gap, nothing is handed on. *)
Theorem interpreted_only_when_complete :
  (forall tick now gpio model callback,
     accumulating [] (init tick now gpio model callback)) /\
  (forall ivs w gpio level tick,
     accumulating ivs (self w) ->
     accumulating (ivs ++ [interval w tick])
                  (self (_rising_edge w gpio level tick))) /\
  (forall tick0 now gpio0 model callback ticks gpio level tick code,
     let w := deliver ticks
                (mkWorld (init tick0 now gpio0 model callback) []) in
     trace (_rising_edge w gpio level tick) = trace w ++ [Decode code] ->
     _bits (self (_rising_edge w gpio level tick)) = 40 /\
     exists hd gap d1 d2 data,
       intervals (tick0 - 10000) (ticks ++ [tick])
         = hd ++ gap :: d1 :: d2 :: data /\
       gap > 10000 /\ d1 <= 10000 /\ d2 <= 10000 /\
       length data = 40%nat /\ Forall valid_pulse data /\
       code = bits_value (map classify data)) /\
  (forall w gpio level tick,
     _in_code (self w) = false -> interval w tick <= 10000 ->
     trace (_rising_edge w gpio level tick) = trace w /\
     _in_code (self (_rising_edge w gpio level tick)) = false) /\
  (forall w gpio level tick,
     interval w tick > 10000 ->
     trace (_rising_edge w gpio level tick) = trace w /\
     _code (self (_rising_edge w gpio level tick)) = 0).
Proof.
  split; [|split; [|split; [|split]]].
  - intros tick now gpio model callback. apply accumulating_idle.
    reflexivity.
  - intros ivs w gpio level tick Hacc. apply accumulating_step. exact Hacc.
  - intros tick0 now gpio0 model callback ticks gpio level tick code w
           Htrace.
    assert (Hacc : accumulating (intervals (tick0 - 10000) ticks) (self w)).
    { apply (accumulating_run ticks
               (mkWorld (init tick0 now gpio0 model callback) []) []).
      apply accumulating_idle. reflexivity. }
    destruct (accumulating_step _ w gpio level tick Hacc)
      as [_ [Hsame | (hd & gap & d1 & d2 & data & Hivs & Hgap & Hd1 & Hd2
                      & Hlen & Hvalid & Hdec & Hbits)]].
    { rewrite Hsame in Htrace. rewrite <- (app_nil_r (trace w)) in Htrace at 1.
      apply app_inv_head in Htrace. discriminate. }
    split; [exact Hbits|].
    exists hd, gap, d1, d2, data.
    rewrite Hdec in Htrace. apply app_inv_head in Htrace.
    injection Htrace as Hcode.
    rewrite intervals_app. cbn [intervals].
    unfold interval in Hivs. unfold w in Hivs.
    rewrite deliver_last_tick in Hivs. cbn [self init _last_edge_tick] in Hivs.
    repeat split; try assumption. symmetry. exact Hcode.
  - intros w gpio level tick Hidle Hshort.
    rewrite edge_idle by assumption. split; [reflexivity | exact Hidle].
  - intros w gpio level tick Hgap.
    rewrite edge_restart by exact Hgap. split; reflexivity.
Qed.

(** The last edge of the sample transmission hands the frame on, with
    [_bits] at 40. *)
Lemma interpreted_only_when_complete_witness :
  _bits (self (_rising_edge
                 (deliver (removelast sample_ticks)
                          (sample_world DHTAUTO None))
                 4 1 (List.last sample_ticks 0))) = 40 /\
  exists hd gap d1 d2 data,
    intervals (20000 - 10000)
              (removelast sample_ticks ++ [List.last sample_ticks 0])
      = hd ++ gap :: d1 :: d2 :: data /\
    gap > 10000 /\ d1 <= 10000 /\ d2 <= 10000 /\
    length data = 40%nat /\ Forall valid_pulse data /\
    frame_of_bytes 15 234 0 34 3 = bits_value (map classify data).
Proof.
  destruct interpreted_only_when_complete as (_ & _ & Honly & _).
  apply (Honly 20000 0%Q 4 DHTAUTO None (removelast sample_ticks) 4 1
               (List.last sample_ticks 0) (frame_of_bytes 15 234 0 34 3)).
  reflexivity.
Defined.

(** ** What a frame does to the stored reading *)

(** The outcome of [_decode_dhtxx] depends on the model and the frame only:
    the status is that of [interpret], a good reading replaces the stored
    one, and any other outcome leaves the stored one alone. *)
Lemma decode_interpret (s : Sensor) :
  _status (_decode_dhtxx s) = _status (interpret (_model s) (_code s)) /\
  (_status (_decode_dhtxx s) = DHT_GOOD ->
   _temperature (_decode_dhtxx s)
     = _temperature (interpret (_model s) (_code s)) /\
   _humidity (_decode_dhtxx s)
     = _humidity (interpret (_model s) (_code s))) /\
  (_status (_decode_dhtxx s) <> DHT_GOOD ->
   _temperature (_decode_dhtxx s) = _temperature s /\
   _humidity (_decode_dhtxx s) = _humidity s).
Proof.
  unfold interpret.
  set (p := set_code (_code s) (init 0 0 0 (_model s) None)).
  assert (Hcode : _code p = _code s) by reflexivity.
  assert (Hmodel : _model p = _model s) by reflexivity.
  assert (Hdec : checksum_ok (_code s) \/ ~ checksum_ok (_code s))
    by (unfold checksum_ok; lia).
  destruct Hdec as [Hok | Hbad].
  2:{ rewrite (decode_bad_checksum s), (decode_bad_checksum p)
        by (rewrite ?Hcode; exact Hbad).
      cbn. repeat split; intros;
        unfold DHT_GOOD, DHT_BAD_CHECKSUM in *; congruence. }
  assert (Hboth : exists r, _decode_dhtxx s = stored r s /\
                            _decode_dhtxx p = stored r p).
  { destruct (Z.eq_dec (_model s) DHT11) as [H11 | H11].
    { eexists. split; [apply decode_dht11; assumption|].
      rewrite <- Hcode. apply decode_dht11; rewrite ?Hcode, ?Hmodel;
        assumption. }
    destruct (Z.eq_dec (_model s) DHTXX) as [Hxx | Hxx].
    { eexists. split; [apply decode_dhtxx; assumption|].
      rewrite <- Hcode. apply decode_dhtxx; rewrite ?Hcode, ?Hmodel;
        assumption. }
    eexists. split; [apply decode_auto; assumption|].
    rewrite <- Hcode. apply decode_auto; rewrite ?Hcode, ?Hmodel;
      assumption. }
  clearbody p. destruct Hboth as ([[[|] t] h] & -> & ->); cbn;
    repeat split; intros; unfold DHT_GOOD, DHT_BAD_DATA in *; congruence.
Qed.

(** ** Traces *)

Lemma since_app (w w' : World) (added : list Event) :
  trace w' = trace w ++ added -> since w w' = added.
Proof.
  intros H. unfold since. rewrite H.
  rewrite skipn_app, skipn_all, Nat.sub_diag. reflexivity.
Qed.

Lemma count_app (p : Event -> bool) (tr tr' : list Event) :
  count p (tr ++ tr') = (count p tr + count p tr')%nat.
Proof. unfold count. rewrite filter_app, length_app. reflexivity. Qed.

Lemma slept_app (tr tr' : list Event) :
  slept (tr ++ tr') = (slept tr + slept tr')%Q \/
  (slept (tr ++ tr') == slept tr + slept tr')%Q.
Proof.
  right. induction tr as [|e tr IH]; cbn [app slept].
  - ring.
  - destruct e; try exact IH. rewrite IH. ring.
Qed.

Lemma slept_app_eq (tr tr' : list Event) :
  (slept (tr ++ tr') == slept tr + slept tr')%Q.
Proof. destruct (slept_app tr tr') as [-> | H]; [reflexivity | exact H]. Qed.

Lemma only_decodes_app (tr tr' : list Event) :
  only_decodes tr -> only_decodes tr' -> only_decodes (tr ++ tr').
Proof. intros H H'. apply Forall_app. split; assumption. Qed.

Lemma only_decodes_counts (tr : list Event) :
  only_decodes tr ->
  count is_call tr = 0%nat /\ slept tr = 0%Q /\
  (forall x, sleeps_of x tr = 0%nat) /\
  (count is_decode tr = 0%nat -> tr = []).
Proof.
  induction 1 as [|e tr He _ IH].
  { repeat split; reflexivity. }
  destruct e; try discriminate.
  destruct IH as (Hcall & Hslept & Hsleeps & _).
  split; [exact Hcall|]. split; [exact Hslept|].
  split; [intros x; apply (Hsleeps x)|]. intros Hnone. discriminate Hnone.
Qed.

(** An edge adds nothing to the trace, or one frame handed on. *)
Lemma edge_added (w : World) (gpio level tick : Z) :
  exists added,
    trace (_rising_edge w gpio level tick) = trace w ++ added /\
    only_decodes added /\
    (added = [] ->
     _status (self (_rising_edge w gpio level tick)) = _status (self w) /\
     _new_data (self (_rising_edge w gpio level tick))
       = _new_data (self w)).
Proof.
  destruct (rising_edge_step w gpio level tick);
    try (exists []; cbn [self trace]; rewrite app_nil_r;
         repeat split; try reflexivity; constructor).
  eexists. split; [reflexivity|]. split.
  - constructor; [reflexivity | constructor].
  - discriminate.
Qed.

Lemma deliver_added (ticks : list Z) : forall w,
  exists added,
    trace (deliver ticks w) = trace w ++ added /\
    only_decodes added /\
    (added = [] ->
     _status (self (deliver ticks w)) = _status (self w) /\
     _new_data (self (deliver ticks w)) = _new_data (self w)).
Proof.
  induction ticks as [|t ticks IH]; intros w.
  { exists []. cbn. rewrite app_nil_r. repeat split. constructor. }
  rewrite deliver_cons.
  destruct (edge_added w (_gpio (self w)) 1 t) as (a & Ha & Hda & Hqa).
  destruct (IH (_rising_edge w (_gpio (self w)) 1 t))
    as (b & Hb & Hdb & Hqb).
  exists (a ++ b). split; [rewrite Hb, Ha, app_assoc; reflexivity|].
  split; [apply only_decodes_app; assumption|].
  intros Hnil. apply app_eq_nil in Hnil. destruct Hnil as [-> ->].
  destruct (Hqa eq_refl) as [Hs Hn]. destruct (Hqb eq_refl) as [Hs' Hn'].
  rewrite Hs', Hn', Hs, Hn. split; reflexivity.
Qed.

Lemma deliver_config (ticks : list Z) : forall w,
  _gpio (self (deliver ticks w)) = _gpio (self w) /\
  _model (self (deliver ticks w)) = _model (self w) /\
  _callback (self (deliver ticks w)) = _callback (self w).
Proof.
  induction ticks as [|t ticks IH]; intros w; [repeat split|].
  rewrite deliver_cons.
  destruct (IH (_rising_edge w (_gpio (self w)) 1 t)) as (Hg & Hm & Hc).
  destruct (edge_config w (_gpio (self w)) 1 t) as (Hg' & Hm' & Hc').
  rewrite Hg, Hm, Hc, Hg', Hm', Hc'. repeat split.
Qed.

(** ** [_trigger], the polling loop and [read] *)

Lemma same_config_refl (w : World) : same_config w w.
Proof. repeat split. Qed.

Lemma same_config_trans (w w' w'' : World) :
  same_config w w' -> same_config w' w'' -> same_config w w''.
Proof.
  intros (Hg & Hm & Hc) (Hg' & Hm' & Hc'). unfold same_config.
  rewrite Hg', Hm', Hc', Hg, Hm, Hc. repeat split.
Qed.

Lemma sleep_added (x : Q) (ticks : list Z) (w : World) :
  exists added,
    trace (sleep x ticks w) = trace w ++ Sleep x :: added /\
    only_decodes added /\
    (added = [] ->
     _status (self (sleep x ticks w)) = _status (self w) /\
     _new_data (self (sleep x ticks w)) = _new_data (self w)) /\
    same_config w (sleep x ticks w).
Proof.
  unfold sleep.
  destruct (deliver_added ticks (emit (Sleep x) w)) as (a & Ha & Hd & Hq).
  exists a. cbn [emit self trace] in Ha, Hq.
  split; [rewrite Ha, <- app_assoc; reflexivity|].
  split; [exact Hd|]. split; [exact Hq|].
  exact (deliver_config ticks (emit (Sleep x) w)).
Qed.

Lemma trigger_added (env : Env) (w : World) :
  exists added,
    trace (_trigger env w) =
      trace w ++ GpioWrite (_gpio (self w)) 0
              :: Sleep (trigger_pulse (_model (self w)))
              :: added ++ [GpioInput (_gpio (self w))] /\
    only_decodes added /\
    (added = [] ->
     _status (self (_trigger env w)) = DHT_TIMEOUT /\
     _new_data (self (_trigger env w)) = false) /\
    same_config w (_trigger env w).
Proof.
  unfold _trigger.
  set (w4 := emit (GpioWrite _ 0) _).
  assert (H4 : trace w4 = trace w ++ [GpioWrite (_gpio (self w)) 0] /\
               _status (self w4) = DHT_TIMEOUT /\
               _new_data (self w4) = false /\
               same_config w w4) by (repeat split).
  assert (Hm : _model (self w4) = _model (self w)) by reflexivity.
  clearbody w4. destruct H4 as (Ht4 & Hs4 & Hn4 & Hc4).
  set (w5 := if negb (_model (self w4) =? DHTXX)
             then sleep (18 # 1000) (trigger_edges env) w4
             else sleep (1 # 1000) (trigger_edges env) w4).
  assert (H5 : w5 = sleep (trigger_pulse (_model (self w)))
                          (trigger_edges env) w4).
  { unfold w5, trigger_pulse. rewrite Hm.
    destruct (negb (_model (self w) =? DHTXX)); reflexivity. }
  clearbody w5. subst w5.
  destruct (sleep_added (trigger_pulse (_model (self w)))
                        (trigger_edges env) w4)
    as (a & Ha & Hd & Hq & Hc5).
  exists a. cbn [emit self trace].
  split.
  { rewrite Ha, Ht4, <- !app_assoc. cbn [app].
    destruct Hc5 as (Hg & _). destruct Hc4 as (Hg' & _).
    rewrite Hg, Hg'. reflexivity. }
  split; [exact Hd|]. split.
  { intros Hnil. destruct (Hq Hnil) as [Hs Hn].
    rewrite Hs, Hn. split; assumption. }
  exact (same_config_trans _ _ _ Hc4 Hc5).
Qed.

Lemma count_cons (p : Event -> bool) (e : Event) (tr : list Event) :
  count p (e :: tr) = ((if p e then 1 else 0) + count p tr)%nat.
Proof. unfold count. cbn [filter]. destruct (p e); reflexivity. Qed.

Lemma sleeps_of_app (x : Q) (tr tr' : list Event) :
  sleeps_of x (tr ++ tr') = (sleeps_of x tr + sleeps_of x tr')%nat.
Proof. apply count_app. Qed.

Lemma sleeps_of_sleep (x : Q) (tr : list Event) :
  sleeps_of x (Sleep x :: tr) = S (sleeps_of x tr).
Proof.
  unfold sleeps_of. rewrite count_cons.
  replace (Qeq_bool x x) with true; [reflexivity|].
  symmetry. apply Qeq_bool_iff. reflexivity.
Qed.

(** The polling loop requests between one and [length range] sleeps of 50 ms
    and nothing else; between them only the edge handler acts. *)
Lemma poll_added (env : Env) (range : list nat) : forall w,
  exists added,
    trace (poll env range w) = trace w ++ added /\
    count is_call added = 0%nat /\
    (sleeps_of (5 # 100) added <= length range)%nat /\
    (range <> [] -> (1 <= sleeps_of (5 # 100) added)%nat) /\
    (slept added ==
       (5 # 100) * inject_Z (Z.of_nat (sleeps_of (5 # 100) added)))%Q /\
    (count is_decode added = 0%nat ->
     _status (self (poll env range w)) = _status (self w) /\
     _new_data (self (poll env range w)) = _new_data (self w)) /\
    same_config w (poll env range w).
Proof.
  induction range as [|i range IH]; intros w.
  { exists []. cbn [poll]. rewrite app_nil_r.
    repeat split; try reflexivity; try (intros H; now elim H). }
  cbn [poll].
  destruct (sleep_added (5 # 100) (poll_edges env i) w)
    as (a & Ha & Hda & Hqa & Hca).
  destruct (only_decodes_counts a Hda) as (Hcall & Hslept & Hsleeps & Hnone).
  set (w1 := sleep (5 # 100) (poll_edges env i) w) in *. clearbody w1.
  destruct (_new_data (self w1)) eqn:Hnew.
  - exists (Sleep (5 # 100) :: a). split; [exact Ha|].
    split; [rewrite count_cons; exact Hcall|].
    rewrite sleeps_of_sleep, Hsleeps. cbn [slept length]. rewrite Hslept.
    split; [lia|]. split; [lia|]. split; [reflexivity|].
    split; [|exact Hca].
    rewrite count_cons. cbn [is_decode]. intros H0.
    rewrite Hnew. apply Hqa. apply Hnone. exact H0.
  - destruct (IH w1) as (b & Hb & Hcb & Hle & _ & Hsb & Hqb & Hcfg).
    exists (Sleep (5 # 100) :: a ++ b).
    split; [rewrite Hb, Ha, <- app_assoc; reflexivity|].
    split; [rewrite count_cons, count_app, Hcall, Hcb; reflexivity|].
    rewrite sleeps_of_sleep, sleeps_of_app, Hsleeps. cbn [slept length].
    split; [lia|]. split; [lia|].
    split.
    { rewrite slept_app_eq, Hslept, Hsb. cbn [Nat.add].
      rewrite Nat2Z.inj_succ. unfold Z.succ. rewrite inject_Z_plus. ring. }
    split; [|exact (same_config_trans _ _ _ Hca Hcfg)].
    rewrite count_cons, count_app. cbn [is_decode]. intros H0.
    assert (Ha0 : count is_decode a = 0%nat) by lia.
    assert (Hb0 : count is_decode b = 0%nat) by lia.
    destruct (Hqb Hb0) as [Hs Hn]. destruct (Hqa (Hnone Ha0)) as [Hs' Hn'].
    rewrite Hs, Hn, Hnew, Hs'. split; [reflexivity | exact Hn'].
Qed.

(** What one call of [read] adds to the trace: the trigger, the polling
    sleeps, and the call of the callback when there is one. *)
Lemma read_added (env : Env) (w : World) :
  exists trig polled,
    trace (_trigger env w) = trace w ++ trig /\
    trace (poll env (seq 0 5) (_trigger env w))
      = trace (_trigger env w) ++ polled /\
    trace (snd (read env w))
      = trace w ++ trig ++ polled ++
        match _callback (self w) with
        | Some f => [Call f (fst (read env w))]
        | None => []
        end /\
    count is_call trig = 0%nat /\
    count is_call polled = 0%nat /\
    (count is_decode trig = 0%nat -> count is_decode polled = 0%nat ->
     d_status (fst (read env w)) = DHT_TIMEOUT).
Proof.
  destruct (trigger_added env w) as (a & Ha & Hda & Hqa & Hca).
  destruct (poll_added env (seq 0 5) (_trigger env w))
    as (b & Hb & Hcb & _ & _ & _ & Hqb & Hcb').
  destruct (only_decodes_counts a Hda) as (Hcall & _ & _ & Hnone).
  eexists. exists b. split; [exact Ha|]. split; [exact Hb|].
  assert (Hcbk : _callback (self (poll env (seq 0 5) (_trigger env w)))
                 = _callback (self w)).
  { destruct Hca as (_ & _ & Hc). destruct Hcb' as (_ & _ & Hc').
    rewrite Hc', Hc. reflexivity. }
  unfold read. cbn [fst snd]. rewrite Hcbk.
  split.
  { destruct (_callback (self w)); cbn [emit trace];
      rewrite Hb, Ha, <- ?app_assoc, ?app_nil_r; reflexivity. }
  split.
  { rewrite !count_cons, count_app, Hcall. reflexivity. }
  split; [exact Hcb|].
  rewrite !count_cons, count_app. cbn [is_decode]. intros Ht Hp.
  assert (Ha0 : a = []) by (apply Hnone; cbn in Ht; lia).
  destruct (Hqa Ha0) as [Hs _]. destruct (Hqb Hp) as [Hs' _].
  cbn [_datum d_status]. rewrite Hs', Hs. reflexivity.
Qed.

(** C8 (as the code has it). [read] calls the callback exactly once when one
    was given, with the tuple it returns, whatever the status of that tuple,
    [DHT_TIMEOUT] included; with no callback it calls nothing. *)
Theorem callback_called_on_every_read (env : Env) (w : World) :
  filter is_call (since w (snd (read env w))) =
    match _callback (self w) with
    | Some f => [Call f (fst (read env w))]
    | None => []
    end.
Proof.
  destruct (read_added env w) as (a & b & _ & _ & Htr & Ha & Hb & _).
  rewrite (since_app _ _ _ Htr), !filter_app.
  apply length_zero_iff_nil in Ha, Hb. rewrite Ha, Hb.
  destruct (_callback (self w)); reflexivity.
Qed.

(** C8 as stated fails: a read of a silent sensor returns [DHT_TIMEOUT] and
    the callback is called all the same. *)
Lemma callback_called_on_timeout :
  ~ (forall (env : Env) (w : World),
       (d_status (fst (read env w)) = DHT_TIMEOUT ->
        count is_call (since w (snd (read env w))) = 0%nat) /\
       (d_status (fst (read env w)) <> DHT_TIMEOUT ->
        _callback (self w) <> None ->
        count is_call (since w (snd (read env w))) = 1%nat)).
Proof.
  intros H.
  destruct (H silent (sample_world DHTAUTO (Some (UserFn 0)))) as [H0 _].
  vm_compute in H0. discriminate (H0 eq_refl).
Qed.

Lemma read_datum (env : Env) (w : World) :
  fst (read env w) = _datum (self (snd (read env w))).
Proof.
  unfold read. cbn [fst snd].
  destruct (_callback (self (poll env (seq 0 5) (_trigger env w))));
    reflexivity.
Qed.

Lemma slept_only_decodes (tr tr' : list Event) :
  only_decodes tr -> (slept (tr ++ tr') == slept tr')%Q.
Proof.
  intros H. destruct (only_decodes_counts tr H) as (_ & Hs & _).
  rewrite slept_app_eq, Hs. ring.
Qed.

Lemma trigger_pulse_is_short (model : Z) :
  Qeq_bool (5 # 100) (trigger_pulse model) = false.
Proof.
  unfold trigger_pulse. destruct (negb (model =? DHTXX)); reflexivity.
Qed.

(** The sleeps of a read are the trigger pulse and those of the loop. *)
Lemma read_sleeps (env : Env) (w : World) :
  sleeps_of (5 # 100) (since w (snd (read env w)))
    = sleeps_of (5 # 100)
        (since (_trigger env w) (poll env (seq 0 5) (_trigger env w))) /\
  (slept (since w (snd (read env w)))
     == trigger_pulse (_model (self w))
        + slept (since (_trigger env w)
                       (poll env (seq 0 5) (_trigger env w))))%Q.
Proof.
  destruct (read_added env w) as (trig & polled & Ht & Hp & Htr & _).
  destruct (trigger_added env w) as (a & Ha & Hda & _).
  rewrite Ht in Ha. apply app_inv_head in Ha. subst trig.
  rewrite (since_app _ _ _ Htr), (since_app _ _ _ Hp).
  destruct (only_decodes_counts a Hda) as (_ & Hsl & Hsleeps & _).
  assert (Hcb : forall f d, sleeps_of (5 # 100) [Call f d] = 0%nat /\
                            slept [Call f d] = 0%Q) by (split; reflexivity).
  split.
  - cbn [app]. unfold sleeps_of at 1.
    rewrite !count_cons, !count_app, !count_cons.
    fold (sleeps_of (5 # 100) a) (sleeps_of (5 # 100) polled).
    rewrite trigger_pulse_is_short, Hsleeps.
    destruct (_callback (self w)); cbn; lia.
  - cbn [app slept]. rewrite <- app_assoc.
    rewrite slept_only_decodes by exact Hda.
    cbn [app slept]. rewrite slept_app_eq.
    destruct (_callback (self w)); cbn [slept]; ring.
Qed.

(** The loop adds nothing to the trace but its sleeps of 50 ms and the frames
    the handler hands on meanwhile. *)
Lemma poll_events (env : Env) (range : list nat) : forall w added,
  trace (poll env range w) = trace w ++ added ->
  Forall (fun e => e = Sleep (5 # 100) \/ is_decode e = true) added.
Proof.
  induction range as [|i range IH]; intros w added Htr.
  { cbn [poll] in Htr. rewrite <- (app_nil_r (trace w)) in Htr at 1.
    apply app_inv_head in Htr. subst added. constructor. }
  cbn [poll] in Htr.
  destruct (sleep_added (5 # 100) (poll_edges env i) w)
    as (a & Ha & Hda & _).
  assert (Hstep : Forall (fun e => e = Sleep (5 # 100) \/ is_decode e = true)
                         (Sleep (5 # 100) :: a)).
  { constructor; [left; reflexivity|].
    apply Forall_impl with (2 := Hda). intros e He. right. exact He. }
  set (w1 := sleep (5 # 100) (poll_edges env i) w) in *. clearbody w1.
  destruct (_new_data (self w1)).
  - rewrite Ha in Htr. apply app_inv_head in Htr. subst added. exact Hstep.
  - destruct (poll_added env range w1) as (b & Hb & _).
    pose proof (IH w1 b Hb) as Hrest.
    rewrite Hb, Ha, <- app_assoc in Htr. apply app_inv_head in Htr.
    subst added. change (Sleep (5 # 100) :: a ++ b)
      with ((Sleep (5 # 100) :: a) ++ b).
    apply Forall_app. split; assumption.
Qed.

(** [_trigger] resets the object before it pulls the line low, and only then
    sleeps for the trigger pulse. *)
Lemma trigger_resets (env : Env) (w : World) :
  exists w0,
    _status (self w0) = DHT_TIMEOUT /\
    _new_data (self w0) = false /\
    trace w0 = trace w ++ [GpioWrite (_gpio (self w)) 0] /\
    _trigger env w =
      emit (GpioInput (_gpio (self w)))
        (sleep (trigger_pulse (_model (self w))) (trigger_edges env) w0).
Proof.
  unfold _trigger.
  set (w0 := emit (GpioWrite _ 0) _).
  exists w0. split; [reflexivity|]. split; [reflexivity|].
  split; [reflexivity|].
  assert (Hm : _model (self w0) = _model (self w)) by reflexivity.
  assert (Hg : _gpio (self w0) = _gpio (self w)) by reflexivity.
  clearbody w0. rewrite Hm. unfold trigger_pulse.
  destruct (negb (_model (self w) =? DHTXX)).
  - destruct (sleep_added (18 # 1000) (trigger_edges env) w0)
      as (_ & _ & _ & _ & (Hg' & _)).
    rewrite Hg', Hg. reflexivity.
  - destruct (sleep_added (1 # 1000) (trigger_edges env) w0)
      as (_ & _ & _ & _ & (Hg' & _)).
    rewrite Hg', Hg. reflexivity.
Qed.

(** C9. [_trigger] sets the status to [DHT_TIMEOUT] (and clears [_new_data])
    before the trigger pulse; [read] starts with that trigger and then adds
    to the trace only the sleeps of its wait loop, 50 ms each, the frames
    handed on meanwhile, and a call of the callback; it sleeps in the loop
    at least once and at most five times, so for the trigger pulse and at
    most 250 ms more in all, and then returns the tuple of the object; and
    when no frame is handed to [_decode_dhtxx] during the read, the tuple
    returned carries [DHT_TIMEOUT]. *)
Theorem read_times_out (env : Env) (w : World) :
  (exists w0,
     _status (self w0) = DHT_TIMEOUT /\
     _new_data (self w0) = false /\
     trace w0 = trace w ++ [GpioWrite (_gpio (self w)) 0] /\
     _trigger env w =
       emit (GpioInput (_gpio (self w)))
         (sleep (trigger_pulse (_model (self w))) (trigger_edges env) w0)) /\
  (exists rest,
     since w (snd (read env w)) = since w (_trigger env w) ++ rest /\
     Forall (fun e => e = Sleep (5 # 100) \/ is_decode e = true \/
                      is_call e = true) rest) /\
  (1 <= sleeps_of (5 # 100) (since w (snd (read env w))) <= 5)%nat /\
  (slept (since w (snd (read env w)))
     == trigger_pulse (_model (self w))
        + (5 # 100) *
          inject_Z (Z.of_nat
            (sleeps_of (5 # 100) (since w (snd (read env w))))))%Q /\
  (slept (since w (snd (read env w)))
     <= trigger_pulse (_model (self w)) + (250 # 1000))%Q /\
  fst (read env w) = _datum (self (snd (read env w))) /\
  (count is_decode (since w (snd (read env w))) = 0%nat ->
   d_status (fst (read env w)) = DHT_TIMEOUT).
Proof.
  split; [apply trigger_resets|].
  destruct (read_added env w) as (trig & polled & Ht & Hp & Htr & _ & _ & Hq).
  destruct (read_sleeps env w) as [Hn Hs].
  destruct (poll_added env (seq 0 5) (_trigger env w))
    as (b & Hb & _ & Hle & Hge & Hsl & _ & _).
  rewrite (since_app _ _ _ Hb) in Hn, Hs.
  cbn [seq length] in Hle.
  assert (H1 : (1 <= sleeps_of (5 # 100) b)%nat) by (apply Hge; discriminate).
  split.
  { eexists. split.
    - rewrite (since_app _ _ _ Htr), (since_app _ _ _ Ht). reflexivity.
    - apply Forall_app. split.
      + apply Forall_impl
          with (2 := poll_events env (seq 0 5) (_trigger env w) polled Hp).
        intros e [He | He]; [left; exact He | right; left; exact He].
      + destruct (_callback (self w));
          [constructor; [right; right; reflexivity | constructor]
          | constructor]. }
  split; [rewrite Hn; lia|].
  split; [rewrite Hs, Hn, Hsl; reflexivity|].
  split.
  { rewrite Hs, Hsl. apply Qplus_le_r.
    setoid_replace (250 # 1000)%Q with ((5 # 100) * inject_Z 5)%Q
      by reflexivity.
    apply Qmult_le_l; [reflexivity|].
    rewrite <- Zle_Qle. lia. }
  split; [apply read_datum|].
  rewrite (since_app _ _ _ Htr), !count_app. intros H0.
  apply Hq; lia.
Qed.

(** C9 at a silent sensor: the read returns [DHT_TIMEOUT]. *)
Lemma read_times_out_witness :
  d_status (fst (read silent (sample_world DHTAUTO None))) = DHT_TIMEOUT.
Proof.
  apply (read_times_out silent (sample_world DHTAUTO None)).
  vm_compute. reflexivity.
Defined.

(** ** The stored reading *)

Lemma last_good_snoc (model : Z) (tr : list Event) (e : Event) :
  last_good model (tr ++ [e]) = good_step model (last_good model tr) e.
Proof. unfold last_good. rewrite fold_left_app. reflexivity. Qed.

Lemma good_step_fold (model : Z) (tr : list Event) : forall th,
  count (good_frame model) tr = 0%nat ->
  fold_left (good_step model) tr th = th.
Proof.
  induction tr as [|e tr IH]; intros th H0; [reflexivity|].
  rewrite count_cons in H0. cbn [fold_left].
  destruct (good_frame model e) eqn:He; [discriminate H0|].
  rewrite IH by exact H0.
  destruct e; try reflexivity. cbn [good_step good_frame] in *.
  rewrite He. reflexivity.
Qed.

(** Without a good frame the reading is the [0.0] of [__init__]. *)
Lemma last_good_none (model : Z) (tr : list Event) :
  count (good_frame model) tr = 0%nat ->
  last_good model tr = (PyFloat 0, PyFloat 0).
Proof. apply good_step_fold. Qed.

(** With one, it is the reading of the last of them. *)
Lemma last_good_some (model code : Z) (tr tr' : list Event) :
  good_frame model (Decode code) = true ->
  count (good_frame model) tr' = 0%nat ->
  last_good model (tr ++ Decode code :: tr')
    = (_temperature (interpret model code), _humidity (interpret model code)).
Proof.
  intros Hgood H0. unfold last_good.
  rewrite fold_left_app. cbn [fold_left].
  rewrite good_step_fold by exact H0.
  cbn [good_step good_frame] in *. rewrite Hgood. reflexivity.
Qed.

Lemma inv_emit (e : Event) (w : World) :
  is_decode e = false -> reading_invariant w -> reading_invariant (emit e w).
Proof.
  unfold reading_invariant. intros He H. cbn [emit self trace].
  rewrite last_good_snoc, <- H. destruct e; try reflexivity. discriminate He.
Qed.

Lemma inv_edge (w : World) (gpio level tick : Z) :
  reading_invariant w -> reading_invariant (_rising_edge w gpio level tick).
Proof.
  unfold reading_invariant, last_good. intros H.
  destruct (rising_edge_step w gpio level tick); try exact H.
  edge_simpl.
  set (c := 2 * _code (self w) + classify (interval w tick)) in *.
  set (s := set_code c (set_bits 40 (set_last_edge_tick tick (self w)))).
  destruct (decode_preserves s) as (_ & Hm & _).
  destruct (decode_interpret s) as (Hst & Hgood & Hbad).
  rewrite Hm, fold_left_app. cbn [fold_left good_step].
  change (_model s) with (_model (self w)) in *.
  change (_code s) with c in *.
  change (_temperature s) with (_temperature (self w)) in Hbad.
  change (_humidity s) with (_humidity (self w)) in Hbad.
  rewrite <- Hst.
  destruct (_status (_decode_dhtxx s) =? DHT_GOOD) eqn:Hg.
  - apply Z.eqb_eq in Hg. destruct (Hgood Hg) as [Ht Hh].
    rewrite Ht, Hh. reflexivity.
  - apply Z.eqb_neq in Hg. destruct (Hbad Hg) as [Ht Hh].
    rewrite Ht, Hh. exact H.
Qed.

Lemma inv_deliver (ticks : list Z) : forall w,
  reading_invariant w -> reading_invariant (deliver ticks w).
Proof.
  induction ticks as [|t ticks IH]; intros w H; [exact H|].
  rewrite deliver_cons. apply IH. apply inv_edge. exact H.
Qed.

Lemma inv_sleep (x : Q) (ticks : list Z) (w : World) :
  reading_invariant w -> reading_invariant (sleep x ticks w).
Proof.
  intros H. unfold sleep. apply inv_deliver. apply inv_emit;
    [reflexivity | exact H].
Qed.

Lemma inv_trigger (env : Env) (w : World) :
  reading_invariant w -> reading_invariant (_trigger env w).
Proof.
  intros H. unfold _trigger.
  apply inv_emit; [reflexivity|].
  match goal with |- reading_invariant (if ?b then _ else _) =>
    destruct b end;
    (apply inv_sleep; apply inv_emit; [reflexivity | exact H]).
Qed.

Lemma inv_poll (env : Env) (range : list nat) : forall w,
  reading_invariant w -> reading_invariant (poll env range w).
Proof.
  induction range as [|i range IH]; intros w H; [exact H|].
  cbn [poll]. pose proof (inv_sleep (5 # 100) (poll_edges env i) w H) as H'.
  destruct (_new_data (self (sleep (5 # 100) (poll_edges env i) w)));
    [exact H' | apply IH; exact H'].
Qed.

Lemma inv_read (env : Env) (w : World) :
  reading_invariant w -> reading_invariant (snd (read env w)).
Proof.
  intros H. unfold read. cbn [snd].
  pose proof (inv_poll env (seq 0 5) _ (inv_trigger env w H)) as H'.
  destruct (_callback (self (poll env (seq 0 5) (_trigger env w))));
    [apply inv_emit; [reflexivity | exact H'] | exact H'].
Qed.

(** At every moment of an object's life the stored reading is that of the
    last good frame, or the [0.0] of [__init__]. *)
Lemma reachable_invariant (w : World) : reachable w -> reading_invariant w.
Proof.
  induction 1 as [| w gpio level tick _ IH | w env _ IH].
  - reflexivity.
  - apply inv_edge. exact IH.
  - apply inv_read. exact IH.
Qed.

Lemma read_config (env : Env) (w : World) :
  same_config w (snd (read env w)).
Proof.
  destruct (trigger_added env w) as (_ & _ & _ & _ & Hc).
  destruct (poll_added env (seq 0 5) (_trigger env w))
    as (_ & _ & _ & _ & _ & _ & _ & Hc').
  pose proof (same_config_trans _ _ _ Hc Hc') as H.
  unfold read. cbn [snd].
  destruct (_callback (self (poll env (seq 0 5) (_trigger env w))));
    exact H.
Qed.

(** C10. A frame that [_decode_dhtxx] rejects, as [DHT_BAD_CHECKSUM] or as
    [DHT_BAD_DATA], leaves the stored temperature and humidity as they were;
    so the tuple [read] returns carries, whatever its status, the reading of
    the last frame of the object's life that was [DHT_GOOD], and the [0.0]
    of [__init__] when there was none. *)
Theorem bad_frame_keeps_reading :
  (forall s,
     _status (_decode_dhtxx s) = DHT_BAD_CHECKSUM \/
     _status (_decode_dhtxx s) = DHT_BAD_DATA ->
     _temperature (_decode_dhtxx s) = _temperature s /\
     _humidity (_decode_dhtxx s) = _humidity s) /\
  (forall env w,
     reachable w ->
     (d_temperature (fst (read env w)), d_humidity (fst (read env w)))
       = last_good (_model (self w)) (trace (snd (read env w)))) /\
  (forall model tr,
     count (good_frame model) tr = 0%nat ->
     last_good model tr = (PyFloat 0, PyFloat 0)) /\
  (forall model code tr tr',
     good_frame model (Decode code) = true ->
     count (good_frame model) tr' = 0%nat ->
     last_good model (tr ++ Decode code :: tr')
       = (_temperature (interpret model code),
          _humidity (interpret model code))).
Proof.
  split.
  { intros s Hs. apply (decode_interpret s).
    unfold DHT_GOOD, DHT_BAD_CHECKSUM, DHT_BAD_DATA in *.
    destruct Hs as [-> | ->]; discriminate. }
  split.
  { intros env w Hw.
    pose proof (inv_read env w (reachable_invariant w Hw)) as H.
    destruct (read_config env w) as (_ & Hm & _).
    unfold reading_invariant in H. rewrite Hm in H.
    rewrite read_datum. exact H. }
  split; [exact last_good_none | exact last_good_some].
Qed.

Lemma after_good_read_reachable : reachable after_good_read.
Proof. apply reach_read. apply reach_init. Qed.

(** C10 at a sensor that read 23.4 degrees and 80.2 % and is then answered by
    a frame whose checksum fails: the status is [DHT_BAD_CHECKSUM] and the
    reading is still 23.4 and 80.2. *)
Lemma bad_frame_keeps_reading_witness :
  d_status (fst (read corrupt_answer after_good_read)) = DHT_BAD_CHECKSUM /\
  (d_temperature (fst (read corrupt_answer after_good_read)),
   d_humidity (fst (read corrupt_answer after_good_read)))
    = (PyFloat (117 # 5), PyFloat (401 # 5)).
Proof.
  split; [vm_compute; reflexivity|].
  rewrite (proj1 (proj2 bad_frame_keeps_reading) corrupt_answer
             after_good_read after_good_read_reachable).
  vm_compute. reflexivity.
Defined.

(** * Further properties of the decoder *)

(** ** The two validations and the automatic model *)

(** X1. No four bytes pass both [_validate_DHT11] and [_validate_DHTXX]: a
    reading that the first accepts has a humidity byte of at least 9, which
    the second reads as more than 110 %. *)
Theorem validations_never_agree (b1 b2 b3 b4 : Z) :
  ~ (valid_of (_validate_DHT11 b1 b2 b3 b4) = true /\
     valid_of (_validate_DHTXX b1 b2 b3 b4) = true).
Proof.
  intros [H11 Hxx].
  assert (Hb3 : 0 <= b3).
  { unfold _validate_DHT11, valid_of in H11. cbn [fst] in H11.
    destruct ((b1 =? 0) && (b3 =? 0) && (b2 <=? 60) && (b4 >=? 9)
              && (b4 <=? 90)) eqn:E; [|discriminate].
    rewrite !andb_true_iff in E. destruct E as [[[[_ E] _] _] _].
    apply Z.eqb_eq in E. lia. }
  rewrite (validations_exclusive b1 b2 b3 b4 Hb3 H11) in Hxx.
  discriminate.
Qed.

Lemma status_good_iff (r : bool * pynum * pynum) (s : Sensor) :
  _status (stored r s) = DHT_GOOD <-> valid_of r = true.
Proof.
  rewrite stored_status. destruct (valid_of r);
    split; intros H; try reflexivity; discriminate.
Qed.

Lemma interpret_model (model code : Z) :
  _model (set_code code (init 0 0 0 model None)) = model /\
  _code (set_code code (init 0 0 0 model None)) = code.
Proof. split; reflexivity. Qed.

(** What [interpret] makes of a frame whose checksum holds, model by model. *)
Lemma interpret_cases (model code : Z) :
  checksum_ok code ->
  interpret DHT11 code
    = stored (_validate_DHT11 (byte1 code) (byte2 code) (byte3 code)
                              (byte4 code))
             (set_code code (init 0 0 0 DHT11 None)) /\
  interpret DHTXX code
    = stored (_validate_DHTXX (byte1 code) (byte2 code) (byte3 code)
                              (byte4 code))
             (set_code code (init 0 0 0 DHTXX None)) /\
  (model <> DHT11 -> model <> DHTXX ->
   interpret model code
     = stored
         (if fst (fst (_validate_DHTXX (byte1 code) (byte2 code)
                                       (byte3 code) (byte4 code)))
          then _validate_DHTXX (byte1 code) (byte2 code) (byte3 code)
                               (byte4 code)
          else _validate_DHT11 (byte1 code) (byte2 code) (byte3 code)
                               (byte4 code))
         (set_code code (init 0 0 0 model None))).
Proof.
  intros Hok. unfold interpret.
  split; [|split].
  - apply (decode_dht11 (set_code code (init 0 0 0 DHT11 None)));
      [exact Hok | reflexivity].
  - apply (decode_dhtxx (set_code code (init 0 0 0 DHTXX None)));
      [exact Hok | reflexivity].
  - intros H11 Hxx.
    apply (decode_auto (set_code code (init 0 0 0 model None)));
      [exact Hok | exact H11 | exact Hxx].
Qed.

Lemma interpret_bad_checksum (model code : Z) :
  ~ checksum_ok code -> _status (interpret model code) = DHT_BAD_CHECKSUM.
Proof.
  intros Hbad. unfold interpret.
  rewrite decode_bad_checksum by exact Hbad. reflexivity.
Qed.

(** X2. Under [DHTAUTO], and under any model value that is neither [DHT11]
    nor [DHTXX], a frame is [DHT_GOOD] exactly when it is under [DHTXX] or
    under [DHT11]; it is never good under both, and the reading stored is
    that of the model that accepts it. *)
Theorem auto_accepts_either (model code : Z) :
  model <> DHT11 -> model <> DHTXX ->
  (_status (interpret model code) = DHT_GOOD <->
   _status (interpret DHTXX code) = DHT_GOOD \/
   _status (interpret DHT11 code) = DHT_GOOD) /\
  ~ (_status (interpret DHTXX code) = DHT_GOOD /\
     _status (interpret DHT11 code) = DHT_GOOD) /\
  (_status (interpret DHTXX code) = DHT_GOOD ->
   _temperature (interpret model code) = _temperature (interpret DHTXX code)
   /\ _humidity (interpret model code) = _humidity (interpret DHTXX code)) /\
  (_status (interpret DHT11 code) = DHT_GOOD ->
   _temperature (interpret model code) = _temperature (interpret DHT11 code)
   /\ _humidity (interpret model code) = _humidity (interpret DHT11 code)).
Proof.
  intros H11 Hxx.
  assert (Hdec : checksum_ok code \/ ~ checksum_ok code)
    by (unfold checksum_ok; lia).
  destruct Hdec as [Hok | Hbad].
  2:{ rewrite !(interpret_bad_checksum _ code Hbad).
      unfold DHT_BAD_CHECKSUM, DHT_GOOD.
      split; [split; [intros H; discriminate H
                     | intros [H | H]; discriminate H]|].
      split; [intros [H _]; discriminate H|].
      split; intros H; discriminate H. }
  destruct (interpret_cases model code Hok) as (E11 & Exx & Eauto).
  rewrite E11, Exx, (Eauto H11 Hxx). clear E11 Exx Eauto.
  pose proof (validations_exclusive (byte1 code) (byte2 code) (byte3 code)
                (byte4 code)) as Hex.
  assert (Hb3 : 0 <= byte3 code)
    by (pose proof (byte3_range code) as Hr; unfold is_byte in Hr; lia).
  specialize (Hex Hb3).
  rewrite !status_good_iff.
  destruct (_validate_DHTXX _ _ _ _) as [[vx tx] hx].
  destruct (_validate_DHT11 _ _ _ _) as [[v1 t1] h1].
  unfold valid_of in *. cbn [fst snd] in *.
  destruct vx, v1; cbn [fst snd stored];
    try (specialize (Hex eq_refl); discriminate Hex);
    intuition (try discriminate; try reflexivity).
Qed.

Lemma auto_accepts_either_witness :
  _status (interpret DHTAUTO (frame_of_bytes 15 234 0 34 3)) = DHT_GOOD <->
  _status (interpret DHTXX (frame_of_bytes 15 234 0 34 3)) = DHT_GOOD \/
  _status (interpret DHT11 (frame_of_bytes 15 234 0 34 3)) = DHT_GOOD.
Proof.
  apply (auto_accepts_either DHTAUTO (frame_of_bytes 15 234 0 34 3));
    discriminate.
Defined.

(** ** [_decode_dhtxx] as an operation *)

Lemma sensor_ext (s s' : Sensor) :
  _gpio s = _gpio s' -> _model s = _model s' -> _callback s = _callback s' ->
  _new_data s = _new_data s' -> _in_code s = _in_code s' ->
  _bits s = _bits s' -> _code s = _code s' -> _status s = _status s' ->
  _timestamp s = _timestamp s' -> _temperature s = _temperature s' ->
  _humidity s = _humidity s' -> _last_edge_tick s = _last_edge_tick s' ->
  s = s'.
Proof.
  destruct s, s'. cbn. intros. subst. reflexivity.
Qed.

Lemma decode_status_range (s : Sensor) :
  _status (_decode_dhtxx s) = DHT_GOOD \/
  _status (_decode_dhtxx s) = DHT_BAD_CHECKSUM \/
  _status (_decode_dhtxx s) = DHT_BAD_DATA.
Proof.
  assert (Hdec : checksum_ok (_code s) \/ ~ checksum_ok (_code s))
    by (unfold checksum_ok; lia).
  destruct Hdec as [Hok | Hbad].
  - destruct (decode_checksum_ok s Hok) as [r ->]. rewrite stored_status.
    destruct (valid_of r); [left | right; right]; reflexivity.
  - rewrite decode_bad_checksum by exact Hbad. right. left. reflexivity.
Qed.

(** X3. [_decode_dhtxx] is idempotent: a second call on the same object
    changes nothing; and it never leaves the status [DHT_TIMEOUT]. *)
Theorem decode_twice (s : Sensor) :
  _decode_dhtxx (_decode_dhtxx s) = _decode_dhtxx s /\
  _status (_decode_dhtxx s) <> DHT_TIMEOUT.
Proof.
  split.
  2:{ destruct (decode_status_range s) as [-> | [-> | ->]]; discriminate. }
  destruct (decode_preserves s)
    as (Hg & Hm & Hc & Hi & Hb & Hcode & Ht & Hl & Hn).
  destruct (decode_preserves (_decode_dhtxx s))
    as (Hg' & Hm' & Hc' & Hi' & Hb' & Hcode' & Ht' & Hl' & Hn').
  destruct (decode_interpret s) as (Hs & Hgood & Hbad).
  destruct (decode_interpret (_decode_dhtxx s)) as (Hs' & Hgood' & Hbad').
  rewrite Hm, Hcode in Hs', Hgood'.
  assert (Hst : _status (_decode_dhtxx (_decode_dhtxx s))
                = _status (_decode_dhtxx s)) by congruence.
  assert (Hth : _temperature (_decode_dhtxx (_decode_dhtxx s))
                  = _temperature (_decode_dhtxx s) /\
                _humidity (_decode_dhtxx (_decode_dhtxx s))
                  = _humidity (_decode_dhtxx s)).
  { destruct (Z.eq_dec (_status (_decode_dhtxx s)) DHT_GOOD) as [E | E].
    - destruct (Hgood E) as [-> ->]. apply Hgood'. congruence.
    - apply Hbad'. congruence. }
  destruct Hth as [Htemp Hhum].
  apply sensor_ext; congruence.
Qed.

Lemma status_bad_checksum_iff (s : Sensor) :
  _status (_decode_dhtxx s) = DHT_BAD_CHECKSUM <-> ~ checksum_ok (_code s).
Proof.
  split.
  - intros Hst Hok. destruct (decode_checksum_ok s Hok) as [r E].
    rewrite E, stored_status in Hst. destruct (valid_of r); discriminate.
  - intros Hbad. rewrite decode_bad_checksum by exact Hbad. reflexivity.
Qed.

(** X4. The checksum detects every corruption confined to one of the five
    bytes of a frame: of two frames that differ in exactly one byte, at most
    one passes the checksum test of [_decode_dhtxx]. *)
Theorem one_byte_corruption_detected (s : Sensor)
    (b0 b1 b2 b3 b4 c0 c1 c2 c3 c4 : Z) :
  Forall is_byte [b0; b1; b2; b3; b4] ->
  Forall is_byte [c0; c1; c2; c3; c4] ->
  differences [b0; b1; b2; b3; b4] [c0; c1; c2; c3; c4] = 1%nat ->
  _status (_decode_dhtxx (set_code (frame_of_bytes b0 b1 b2 b3 b4) s))
    <> DHT_BAD_CHECKSUM ->
  _status (_decode_dhtxx (set_code (frame_of_bytes c0 c1 c2 c3 c4) s))
    = DHT_BAD_CHECKSUM.
Proof.
  intros Hb Hc Hdiff Hgood.
  repeat match goal with
         | H : Forall _ (_ :: _) |- _ => inversion H; subst; clear H
         | H : Forall _ [] |- _ => clear H
         end.
  apply status_bad_checksum_iff. rewrite status_bad_checksum_iff in Hgood.
  cbn [_code set_code] in *.
  rewrite checksum_ok_frame in * by assumption.
  assert (Hsum : b0 = (b1 + b2 + b3 + b4) mod 256) by lia.
  clear Hgood. unfold is_byte in *. cbn [differences] in Hdiff.
  destruct (Z.eqb_spec b0 c0), (Z.eqb_spec b1 c1), (Z.eqb_spec b2 c2),
    (Z.eqb_spec b3 c3), (Z.eqb_spec b4 c4); try discriminate Hdiff;
    subst; Z.div_mod_to_equations; lia.
Qed.

Lemma one_byte_corruption_detected_witness :
  _status (_decode_dhtxx
             (set_code (frame_of_bytes 15 234 0 35 3)
                       (init 0 0 4 DHTAUTO None)))
    = DHT_BAD_CHECKSUM.
Proof.
  apply (one_byte_corruption_detected (init 0 0 4 DHTAUTO None)
           15 234 0 34 3 15 234 0 35 3).
  - repeat constructor; unfold is_byte; lia.
  - repeat constructor; unfold is_byte; lia.
  - reflexivity.
  - vm_compute. discriminate.
Defined.

(** ** What a read keeps *)

(** A property of the world that every edge and every event other than a
    frame handed on keep is kept by the sleeps, by the polling loop, and by
    [_trigger] and [read] from the moment the object is reset. *)
Section Preserved.
Variable P : World -> Prop.
Hypothesis P_edge :
  forall w gpio level tick, P w -> P (_rising_edge w gpio level tick).
Hypothesis P_emit :
  forall e w, is_decode e = false -> P w -> P (emit e w).

Lemma preserved_deliver (ticks : list Z) : forall w,
  P w -> P (deliver ticks w).
Proof.
  induction ticks as [|t ticks IH]; intros w H; [exact H|].
  rewrite deliver_cons. apply IH, P_edge, H.
Qed.

Lemma preserved_sleep (x : Q) (ticks : list Z) (w : World) :
  P w -> P (sleep x ticks w).
Proof.
  intros H. unfold sleep. apply preserved_deliver, P_emit;
    [reflexivity | exact H].
Qed.

Lemma preserved_poll (env : Env) (range : list nat) : forall w,
  P w -> P (poll env range w).
Proof.
  induction range as [|i range IH]; intros w H; [exact H|].
  cbn [poll].
  pose proof (preserved_sleep (5 # 100) (poll_edges env i) w H) as H'.
  destruct (_new_data (self (sleep (5 # 100) (poll_edges env i) w)));
    [exact H' | apply IH; exact H'].
Qed.

Lemma preserved_trigger (env : Env) (w : World) :
  P (reset env w) -> P (_trigger env w).
Proof.
  intros H. unfold _trigger. fold (reset env w).
  apply P_emit; [reflexivity|].
  match goal with |- P (if ?b then _ else _) => destruct b end;
    (apply preserved_sleep, P_emit; [reflexivity | exact H]).
Qed.

Lemma preserved_read (env : Env) (w : World) :
  P (reset env w) -> P (snd (read env w)).
Proof.
  intros H. unfold read. cbn [snd].
  pose proof (preserved_poll env (seq 0 5) _ (preserved_trigger env w H))
    as H'.
  destruct (_callback (self (poll env (seq 0 5) (_trigger env w))));
    [apply P_emit; [reflexivity | exact H'] | exact H'].
Qed.
End Preserved.

Lemma last_decode_fold (tr : list Event) : forall o,
  fold_left (fun o e => match e with Decode code => Some code | _ => o end)
            tr o
  = match last_decode tr with Some code => Some code | None => o end.
Proof.
  unfold last_decode.
  induction tr as [|e tr IH]; intros o; [reflexivity|].
  cbn [fold_left]. rewrite IH. symmetry. rewrite IH.
  destruct (fold_left _ tr None); [reflexivity|].
  destruct e; reflexivity.
Qed.

Lemma last_decode_app (tr tr' : list Event) :
  last_decode (tr ++ tr')
  = match last_decode tr' with
    | Some code => Some code
    | None => last_decode tr
    end.
Proof.
  unfold last_decode at 1. rewrite fold_left_app.
  apply last_decode_fold.
Qed.

Lemma last_decode_none (tr : list Event) :
  last_decode tr = None <-> count is_decode tr = 0%nat.
Proof.
  induction tr as [|e tr IH] using rev_ind; [split; reflexivity|].
  rewrite last_decode_app, count_app, count_cons.
  destruct e; cbn [last_decode fold_left is_decode count filter length];
    rewrite ?Nat.add_0_r; try exact IH.
  split; [discriminate | lia].
Qed.

Lemma follows_refl (w : World) : follows w w.
Proof.
  exists []. rewrite app_nil_r. repeat split.
Qed.

Lemma follows_trans (w w' w'' : World) :
  follows w w' -> follows w' w'' -> follows w w''.
Proof.
  intros (a & Ha & Hc & Ht & Hs) (b & Hb & Hc' & Ht' & Hs').
  exists (a ++ b).
  split; [rewrite Hb, Ha, app_assoc; reflexivity|].
  split; [exact (same_config_trans _ _ _ Hc Hc')|].
  split; [rewrite Ht', Ht; reflexivity|].
  rewrite last_decode_app. destruct Hc as (_ & Hm & _).
  destruct (last_decode b) as [code|].
  - rewrite <- Hm. exact Hs'.
  - destruct Hs' as [-> ->]. exact Hs.
Qed.

Lemma follows_emit (e : Event) (w : World) :
  is_decode e = false -> follows w (emit e w).
Proof.
  intros He. exists [e]. split; [reflexivity|].
  split; [repeat split|]. split; [reflexivity|].
  destruct e; try discriminate He; split; reflexivity.
Qed.

Lemma follows_edge (w : World) (gpio level tick : Z) :
  follows w (_rising_edge w gpio level tick).
Proof.
  destruct (rising_edge_step w gpio level tick);
    try solve [exists []; cbn [trace]; rewrite app_nil_r;
               repeat split; reflexivity].
  exists [Decode (2 * _code (self w) + classify (interval w tick))].
  split; [reflexivity|]. edge_simpl.
  set (s := set_code _ (set_bits 40 (set_last_edge_tick tick (self w)))).
  destruct (decode_preserves s)
    as (Hg & Hm & Hc & _ & _ & _ & Ht & _ & Hn).
  destruct (decode_interpret s) as (Hs & _).
  split; [unfold same_config; edge_simpl; rewrite Hg, Hm, Hc;
          repeat split|].
  split; [rewrite Ht; reflexivity|].
  cbn [last_decode fold_left]. split; [exact Hs | exact Hn].
Qed.

Lemma follows_read (env : Env) (w : World) :
  follows (reset env w) (snd (read env w)).
Proof.
  apply (preserved_read (follows (reset env w))).
  - intros w' gpio level tick H.
    exact (follows_trans _ _ _ H (follows_edge w' gpio level tick)).
  - intros e w' He H. exact (follows_trans _ _ _ H (follows_emit e w' He)).
  - apply follows_refl.
Qed.

Lemma last_decode_in (tr : list Event) (code : Z) :
  last_decode tr = Some code -> In (Decode code) tr.
Proof.
  induction tr as [|e tr IH] using rev_ind; [discriminate|].
  rewrite last_decode_app. intros H. apply in_or_app.
  destruct e; cbn [last_decode fold_left] in H;
    try (left; apply IH; exact H).
  right. left. congruence.
Qed.

(** X5. The tuple [read] returns carries the time taken by [_trigger] and
    the GPIO of the object; and a status other than [DHT_TIMEOUT] in it is
    never a stale one: it is the status that [_decode_dhtxx] gives, under
    the model of the object, to a frame handed on during this read. *)
Theorem read_returns (env : Env) (w : World) :
  d_timestamp (fst (read env w)) = clock env /\
  d_gpio (fst (read env w)) = _gpio (self w) /\
  (d_status (fst (read env w)) <> DHT_TIMEOUT ->
   exists code,
     In (Decode code) (since w (snd (read env w))) /\
     d_status (fst (read env w))
       = _status (interpret (_model (self w)) code)).
Proof.
  destruct (follows_read env w) as (added & Htr & (Hg & _) & Ht & Hs).
  rewrite read_datum. cbn [_datum d_timestamp d_gpio d_status].
  change (trace (reset env w)) with (trace w) in Htr.
  rewrite (since_app _ _ _ Htr).
  split; [exact Ht|]. split; [exact Hg|].
  change (_model (self (reset env w))) with (_model (self w)) in Hs.
  destruct (last_decode added) as [code|] eqn:El.
  - destruct Hs as [Hs _]. intros _. exists code.
    split; [apply last_decode_in; exact El | exact Hs].
  - destruct Hs as [Hs _]. intros Hne. elim Hne. exact Hs.
Qed.

(** X5 at a sensor that answers with the sample transmission. *)
Lemma read_returns_witness :
  exists code,
    In (Decode code)
       (since (sample_world DHTXX None)
              (snd (read (answering 10000 sample_intervals)
                         (sample_world DHTXX None)))) /\
    d_status (fst (read (answering 10000 sample_intervals)
                        (sample_world DHTXX None)))
      = _status (interpret (_model (self (sample_world DHTXX None))) code).
Proof.
  apply (read_returns (answering 10000 sample_intervals)
                      (sample_world DHTXX None)).
  vm_compute. discriminate.
Defined.

(** ** How long a read sleeps *)

(** With no frame handed on, the loop sleeps once per value of its range. *)
Lemma poll_silent (env : Env) (range : list nat) : forall w added,
  _new_data (self w) = false ->
  trace (poll env range w) = trace w ++ added ->
  count is_decode added = 0%nat ->
  added = repeat (Sleep (5 # 100)) (length range).
Proof.
  induction range as [|i range IH]; intros w added Hnew Htr H0.
  { cbn [poll] in Htr. rewrite <- (app_nil_r (trace w)) in Htr at 1.
    apply app_inv_head in Htr. subst added. reflexivity. }
  cbn [poll] in Htr.
  destruct (sleep_added (5 # 100) (poll_edges env i) w)
    as (a & Ha & Hda & Hqa & _).
  destruct (only_decodes_counts a Hda) as (_ & _ & _ & Hnone).
  set (w1 := sleep (5 # 100) (poll_edges env i) w) in *. clearbody w1.
  destruct (_new_data (self w1)) eqn:Hnew1.
  - rewrite Ha in Htr. apply app_inv_head in Htr. subst added.
    rewrite count_cons in H0. cbn [is_decode] in H0.
    destruct (Hqa (Hnone H0)) as [_ Hn]. congruence.
  - destruct (poll_added env range w1) as (b & Hb & _).
    rewrite Hb, Ha, <- app_assoc in Htr. apply app_inv_head in Htr.
    subst added. cbn [app] in H0.
    rewrite count_cons, count_app in H0. cbn [is_decode] in H0.
    assert (Ha0 : a = []) by (apply Hnone; lia). subst a.
    cbn [app length repeat]. f_equal.
    apply (IH w1 b Hnew1 Hb). cbn in H0. lia.
Qed.

Lemma sleeps_of_repeat (x : Q) (n : nat) :
  sleeps_of x (repeat (Sleep x) n) = n.
Proof.
  induction n as [|n IH]; [reflexivity|].
  cbn [repeat]. rewrite sleeps_of_sleep, IH. reflexivity.
Qed.

(** X6. A read sleeps for the trigger pulse and then 50 ms per turn of its
    loop, one to five turns: five when no frame is handed on during the
    read, one when a frame is handed on during the trigger pulse or the
    first sleep of the loop. *)
Theorem read_duration (env : Env) (w : World) :
  (slept (since w (snd (read env w)))
     == trigger_pulse (_model (self w))
        + (5 # 100) *
          inject_Z (Z.of_nat
            (sleeps_of (5 # 100) (since w (snd (read env w))))))%Q /\
  (1 <= sleeps_of (5 # 100) (since w (snd (read env w))) <= 5)%nat /\
  (count is_decode (since w (snd (read env w))) = 0%nat ->
   sleeps_of (5 # 100) (since w (snd (read env w))) = 5%nat) /\
  ((0 < count is_decode
          (since w (sleep (5 # 100) (poll_edges env 0) (_trigger env w))))%nat
   -> sleeps_of (5 # 100) (since w (snd (read env w))) = 1%nat).
Proof.
  destruct (read_sleeps env w) as [Hn Hs].
  destruct (poll_added env (seq 0 5) (_trigger env w))
    as (b & Hb & _ & Hle & Hge & Hsl & _ & _).
  rewrite (since_app _ _ _ Hb) in Hn, Hs.
  split; [rewrite Hs, Hn, Hsl; reflexivity|].
  cbn [seq length] in Hle.
  split; [rewrite Hn; split; [apply Hge; discriminate | exact Hle]|].
  split.
  - intros H0. rewrite Hn.
    destruct (read_added env w) as (trig & polled & Ht & Hp & Htr & _).
    rewrite Hb in Hp. apply app_inv_head in Hp. subst polled.
    rewrite (since_app _ _ _ Htr), !count_app in H0.
    destruct (trigger_added env w) as (a & Ha & Hda & Hqa & _).
    rewrite Ht in Ha. apply app_inv_head in Ha. subst trig.
    rewrite !count_cons, count_app in H0. cbn [is_decode] in H0.
    destruct (only_decodes_counts a Hda) as (_ & _ & _ & Hnone).
    assert (Ha0 : a = []) by (apply Hnone; lia).
    destruct (Hqa Ha0) as [_ Hnew].
    rewrite (poll_silent env (seq 0 5) (_trigger env w) b Hnew Hb)
      by lia.
    apply sleeps_of_repeat.
  - intros Hpos. rewrite Hn.
    assert (Hf : follows (reset env w)
                   (sleep (5 # 100) (poll_edges env 0) (_trigger env w))).
    { apply (preserved_sleep (follows (reset env w))).
      - intros w' gpio level tick H.
        exact (follows_trans _ _ _ H (follows_edge w' gpio level tick)).
      - intros e w' He H.
        exact (follows_trans _ _ _ H (follows_emit e w' He)).
      - apply (preserved_trigger (follows (reset env w))).
        + intros w' gpio level tick H.
          exact (follows_trans _ _ _ H (follows_edge w' gpio level tick)).
        + intros e w' He H.
          exact (follows_trans _ _ _ H (follows_emit e w' He)).
        + apply follows_refl. }
    destruct Hf as (added & Htr & _ & _ & Hst).
    change (trace (reset env w)) with (trace w) in Htr.
    rewrite (since_app _ _ _ Htr) in Hpos.
    destruct (last_decode added) as [code|] eqn:El.
    2:{ apply last_decode_none in El. lia. }
    destruct Hst as [_ Hnew].
    destruct (sleep_added (5 # 100) (poll_edges env 0) (_trigger env w))
      as (a & Ha & Hda & _).
    assert (Hpoll : poll env (seq 0 5) (_trigger env w)
                    = sleep (5 # 100) (poll_edges env 0) (_trigger env w)).
    { cbn [seq poll]. rewrite Hnew. reflexivity. }
    rewrite Hpoll, Ha in Hb. apply app_inv_head in Hb. subst b.
    rewrite sleeps_of_sleep.
    destruct (only_decodes_counts a Hda) as (_ & _ & Hsleeps & _).
    rewrite Hsleeps. reflexivity.
Qed.

(** X6 at a silent sensor, and at one that answers during the first sleep of
    the loop. *)
Lemma read_duration_witness :
  sleeps_of (5 # 100)
    (since (sample_world DHTAUTO None)
           (snd (read silent (sample_world DHTAUTO None)))) = 5%nat /\
  sleeps_of (5 # 100)
    (since (sample_world DHTXX None)
           (snd (read (answering 10000 sample_intervals)
                      (sample_world DHTXX None)))) = 1%nat.
Proof.
  split.
  - apply (read_duration silent (sample_world DHTAUTO None)).
    vm_compute. reflexivity.
  - apply (read_duration (answering 10000 sample_intervals)
                         (sample_world DHTXX None)).
    vm_compute. reflexivity.
Defined.

(** ** Bounds of the decoder *)

Lemma shift_bound (b c d : Z) :
  0 <= b -> 0 <= c < 2 ^ Z.max 0 b -> 0 <= d <= 1 ->
  0 <= 2 * c + d < 2 ^ Z.max 0 (b + 1).
Proof.
  intros Hb Hc Hd.
  replace (Z.max 0 b) with b in Hc by lia.
  replace (Z.max 0 (b + 1)) with (Z.succ b) by lia.
  rewrite Z.pow_succ_r by exact Hb. lia.
Qed.

Lemma classify_range (i : Z) : 0 <= classify i <= 1.
Proof. unfold classify. destruct (i >? 100); lia. Qed.

Lemma bounded_edge (w : World) (gpio level tick : Z) :
  bounded w -> bounded (_rising_edge w gpio level tick).
Proof.
  intros ((Hbits & Hcode & Hin & Hst) & Htr).
  destruct (rising_edge_step w gpio level tick) as
    [Hgap | Hshort Hidle | Hshort Hcoding Hneg
     | Hshort Hcoding Hpos Hnot40 Hvalid | Hshort Hcoding Hpos Hbad
     | Hshort Hcoding H40 Hvalid];
    unfold bounded, well_formed; cbn [self trace];
    try specialize (Hin Hcoding).
  - cbn. repeat split; try lia; exact Htr.
  - edge_simpl. repeat split; try lia; try exact Htr; try exact Hin.
  - edge_simpl.
    replace (Z.max 0 (_bits (self w))) with 0 in Hcode by lia.
    replace (Z.max 0 (_bits (self w) + 1)) with 0 by lia.
    repeat split; try lia; exact Htr.
  - edge_simpl.
    pose proof (shift_bound _ _ _ Hpos Hcode
                  (classify_range (interval w tick))).
    repeat split; try lia; exact Htr.
  - edge_simpl.
    pose proof (shift_bound (_bits (self w)) (_code (self w)) 0 Hpos Hcode).
    repeat split; try lia; try exact Htr; discriminate.
  - edge_simpl.
    set (c := 2 * _code (self w) + classify (interval w tick)) in *.
    set (s := set_code c (set_bits 40 (set_last_edge_tick tick (self w)))).
    destruct (decode_preserves s)
      as (_ & _ & _ & _ & Hb & Hc & _ & _ & _).
    assert (Hpos : 0 <= _bits (self w)) by lia.
    pose proof (shift_bound _ _ _ Hpos Hcode
                  (classify_range (interval w tick))) as Hc'.
    fold c in Hc'. rewrite H40 in Hc'. change (Z.max 0 40) with 40 in Hc'.
    rewrite Hb, Hc. change (_bits s) with 40. change (_code s) with c.
    change (Z.max 0 40) with 40.
    split; [|apply Forall_app; split;
              [exact Htr | constructor; [exact Hc' | constructor]]].
    split; [lia|]. split; [exact Hc'|]. split; [discriminate|].
    destruct (decode_status_range s) as [-> | [-> | ->]];
      unfold DHT_GOOD, DHT_BAD_CHECKSUM, DHT_BAD_DATA; lia.
Qed.

Lemma bounded_emit (e : Event) (w : World) :
  is_decode e = false -> bounded w -> bounded (emit e w).
Proof.
  intros He [Hwf Htr]. split; [exact Hwf|]. cbn [emit trace].
  apply Forall_app. split; [exact Htr|].
  constructor; [|constructor]. destruct e; try exact I. discriminate He.
Qed.

Lemma bounded_read (env : Env) (w : World) :
  bounded w -> bounded (snd (read env w)).
Proof.
  intros ((Hbits & Hcode & Hin & Hst) & Htr).
  apply (preserved_read bounded bounded_edge bounded_emit).
  split; [|exact Htr]. unfold well_formed. cbn.
  repeat split; try exact Hin; unfold DHT_TIMEOUT; lia.
Qed.

Lemma reachable_bounded (w : World) : reachable w -> bounded w.
Proof.
  induction 1 as [| w gpio level tick _ IH | w env _ IH].
  - split; [|constructor]. unfold well_formed. cbn.
    repeat split; try discriminate; unfold DHT_TIMEOUT; lia.
  - apply bounded_edge, IH.
  - apply bounded_read, IH.
Qed.

(** X7. Through the life of an object, whatever the edges, the bit counter
    stays between -2 and 40, the accumulator stays a 40-bit number, the
    status stays one of the four status values, and every word handed to
    [_decode_dhtxx] is a 40-bit number, so that the five bytes taken from it
    are all of it. *)
Theorem decoder_bounds (w : World) :
  reachable w ->
  -2 <= _bits (self w) <= 40 /\
  0 <= _code (self w) < 2 ^ 40 /\
  DHT_GOOD <= _status (self w) <= DHT_TIMEOUT /\
  (forall code,
     In (Decode code) (trace w) ->
     0 <= code < 2 ^ 40 /\
     code = frame_of_bytes (byte0 code) (byte1 code) (byte2 code)
                           (byte3 code) (byte4 code)).
Proof.
  intros Hw. destruct (reachable_bounded w Hw)
    as ((Hbits & Hcode & _ & Hst) & Htr).
  split; [exact Hbits|]. split.
  { split; [lia|]. apply Z.lt_le_trans with (1 := proj2 Hcode).
    apply Z.pow_le_mono_r; lia. }
  split; [exact Hst|].
  intros code Hin. rewrite Forall_forall in Htr.
  pose proof (Htr _ Hin) as Hc. cbn [is_frame] in Hc.
  split; [exact Hc | apply frame_of_its_bytes; exact Hc].
Qed.

Lemma decoder_bounds_witness :
  -2 <= _bits (self after_good_read) <= 40 /\
  0 <= _code (self after_good_read) < 2 ^ 40 /\
  DHT_GOOD <= _status (self after_good_read) <= DHT_TIMEOUT /\
  (forall code,
     In (Decode code) (trace after_good_read) ->
     0 <= code < 2 ^ 40 /\
     code = frame_of_bytes (byte0 code) (byte1 code) (byte2 code)
                           (byte3 code) (byte4 code)).
Proof.
  apply (decoder_bounds after_good_read).
  apply reach_read. apply reach_init.
Defined.

(** ** The tick counter *)




(** ** The loop of [main] *)

Lemma turn_fields (interval : pyval) (r : Round) (x : Exporter) :
  sensor (state (turn interval r x))
    = match interval with
      | PyNumber seconds =>
          sleep (inject_Z seconds) (interval_edges r)
                (snd (read (reading_env r) (sensor x)))
      | PyStr _ => snd (read (reading_env r) (sensor x))
      end /\
  TEMPERATURE (state (turn interval r x))
    = Gauge_set (d_temperature (fst (read (reading_env r) (sensor x)))) /\
  HUMIDITY (state (turn interval r x))
    = Gauge_set (d_humidity (fst (read (reading_env r) (sensor x)))).
Proof.
  unfold turn, dht_read_metrics.
  destruct (read (reading_env r) (sensor x)) as [datum w].
  destruct interval; repeat split.
Qed.

Lemma read_without_callback (env : Env) (w : World) :
  _callback (self w) = None ->
  count is_call (trace w) = 0%nat ->
  count is_call (trace (snd (read env w))) = 0%nat.
Proof.
  intros Hnone H0.
  destruct (read_added env w) as (a & b & _ & _ & Htr & Ha & Hb & _).
  rewrite Htr, Hnone, !count_app, H0, Ha, Hb. reflexivity.
Qed.

Lemma read_exporting (env : Env) (w : World) (t h : Q) :
  exporting (mkExporter w t h) ->
  exporting (mkExporter (snd (read env w)) t h).
Proof.
  unfold exporting. cbn [sensor]. intros (Hinv & Hm & Hc & H0).
  destruct (read_config env w) as (_ & Hm' & Hc').
  split; [apply inv_read, Hinv|].
  split; [rewrite Hm'; exact Hm|].
  split; [rewrite Hc'; exact Hc|].
  apply read_without_callback; assumption.
Qed.

Lemma sleep_exporting (seconds : Q) (ticks : list Z) (w : World) (t h : Q) :
  exporting (mkExporter w t h) ->
  exporting (mkExporter (sleep seconds ticks w) t h).
Proof.
  unfold exporting. cbn [sensor]. intros (Hinv & Hm & Hc & H0).
  destruct (sleep_added seconds ticks w)
    as (a & Ha & Hda & _ & (_ & Hm' & Hc')).
  destruct (only_decodes_counts a Hda) as (Hcall & _).
  split; [apply inv_sleep, Hinv|].
  split; [rewrite Hm'; exact Hm|].
  split; [rewrite Hc'; exact Hc|].
  rewrite Ha, count_app, count_cons, Hcall, H0. reflexivity.
Qed.

Lemma turn_exporting (interval : pyval) (r : Round) (x : Exporter) :
  exporting x -> exporting (state (turn interval r x)).
Proof.
  intros Hx.
  assert (Hread : forall t h,
            exporting (mkExporter (snd (read (reading_env r) (sensor x)))
                                  t h)).
  { intros t h. apply read_exporting. exact Hx. }
  destruct (turn_fields interval r x) as (Hs & _).
  unfold exporting. rewrite Hs.
  destruct interval as [s | seconds].
  - exact (Hread 0%Q 0%Q).
  - exact (sleep_exporting _ _ _ 0%Q 0%Q (Hread 0%Q 0%Q)).
Qed.

Lemma turns_exporting (interval : pyval) (rounds : list Round) :
  forall x x',
    exporting x -> turns interval rounds x = Looping x' -> exporting x'.
Proof.
  induction rounds as [|r rounds IH]; intros x x' Hx Hturns.
  { cbn [turns] in Hturns. injection Hturns as <-. exact Hx. }
  cbn [turns] in Hturns.
  pose proof (turn_exporting interval r x Hx) as Hstep.
  destruct (turn interval r x) as [x1 | x1]; [|discriminate Hturns].
  exact (IH x1 x' Hstep Hturns).
Qed.

Lemma main_start_exporting (tick : Z) (now : Q) (startup : list Z) :
  exporting (main_start tick now startup).
Proof.
  unfold exporting, main_start. cbn [sensor].
  set (w0 := mkWorld (init tick now 4 DHTAUTO None) []).
  destruct (deliver_config startup w0) as (_ & Hm & Hc).
  destruct (deliver_added startup w0) as (a & Ha & Hda & _).
  destruct (only_decodes_counts a Hda) as (Hcall & _).
  split; [apply inv_deliver; reflexivity|].
  split; [rewrite Hm; reflexivity|].
  split; [rewrite Hc; reflexivity|].
  rewrite Ha. exact Hcall.
Qed.

(** X9. In every turn of the loop of [main] (outside dummy mode, [GPIO_PIN]
    not set) the values set on the two gauges are the floats of the reading
    of the last frame that was [DHT_GOOD] up to the end of the read of that
    turn, whatever the status of that read, which [main] does not look at,
    and [0.0] when there was no such frame yet; a frame that arrives during
    [sleep(INTERVAL)] shows on the gauges at the next turn only.  The sensor
    that [main] creates never calls a callback.  With [INTERVAL_SECONDS] not
    set the turn ends in the sleep of 10 seconds; with it set, [INTERVAL] is
    a string and the turn ends, gauges set, in the [TypeError] of
    [sleep(INTERVAL)]. *)
Theorem exported_metrics (INTERVAL_SECONDS : option String.string)
    (tick : Z) (now : Q) (startup : list Z) (rounds : list Round)
    (r : Round) (x : Exporter) :
  turns (INTERVAL INTERVAL_SECONDS) rounds (main_start tick now startup)
    = Looping x ->
  (TEMPERATURE (state (turn (INTERVAL INTERVAL_SECONDS) r x)),
   HUMIDITY (state (turn (INTERVAL INTERVAL_SECONDS) r x)))
    = gauges_of
        (last_good DHTAUTO
           (trace (snd (read (reading_env r) (sensor x))))) /\
  (count (good_frame DHTAUTO)
     (trace (snd (read (reading_env r) (sensor x)))) = 0%nat ->
   TEMPERATURE (state (turn (INTERVAL INTERVAL_SECONDS) r x)) = 0%Q /\
   HUMIDITY (state (turn (INTERVAL INTERVAL_SECONDS) r x)) = 0%Q) /\
  count is_call
    (trace (sensor (state (turn (INTERVAL INTERVAL_SECONDS) r x))))
    = 0%nat /\
  (INTERVAL_SECONDS = None ->
   turn (INTERVAL INTERVAL_SECONDS) r x
     = Looping (state (turn (INTERVAL INTERVAL_SECONDS) r x)) /\
   sleeps_of 10
     (since (snd (read (reading_env r) (sensor x)))
            (sensor (state (turn (INTERVAL INTERVAL_SECONDS) r x))))
     = 1%nat) /\
  (INTERVAL_SECONDS <> None ->
   turn (INTERVAL INTERVAL_SECONDS) r x
     = TypeError (state (turn (INTERVAL INTERVAL_SECONDS) r x)) /\
   sensor (state (turn (INTERVAL INTERVAL_SECONDS) r x))
     = snd (read (reading_env r) (sensor x))).
Proof.
  intros Hturns.
  pose proof (turns_exporting _ rounds _ x
                (main_start_exporting tick now startup) Hturns) as Hx.
  destruct (turn_exporting (INTERVAL INTERVAL_SECONDS) r x Hx)
    as (_ & _ & _ & Hcalls).
  destruct (turn_fields (INTERVAL INTERVAL_SECONDS) r x) as (Hs & Ht & Hh).
  destruct Hx as (Hinv & Hm & _ & _).
  assert (Hgauges :
    (d_temperature (fst (read (reading_env r) (sensor x))),
     d_humidity (fst (read (reading_env r) (sensor x))))
    = last_good DHTAUTO (trace (snd (read (reading_env r) (sensor x))))).
  { pose proof (inv_read (reading_env r) (sensor x) Hinv) as H.
    destruct (read_config (reading_env r) (sensor x)) as (_ & Hm' & _).
    unfold reading_invariant in H. rewrite Hm', Hm in H.
    rewrite read_datum. exact H. }
  split.
  { rewrite Ht, Hh, <- Hgauges. reflexivity. }
  split.
  { intros Hnone. rewrite (last_good_none _ _ Hnone) in Hgauges.
    pose proof (f_equal fst Hgauges) as Hg1.
    pose proof (f_equal snd Hgauges) as Hg2.
    cbn [fst snd] in Hg1, Hg2.
    rewrite Ht, Hh, Hg1, Hg2. split; reflexivity. }
  split; [exact Hcalls|].
  split.
  - intros ->. cbn [INTERVAL environ_get] in *.
    destruct (sleep_added (inject_Z 10) (interval_edges r)
                (snd (read (reading_env r) (sensor x))))
      as (a & Ha & Hda & _).
    split.
    + unfold turn, dht_read_metrics.
      destruct (read (reading_env r) (sensor x)) as [datum w']. reflexivity.
    + rewrite Hs, (since_app _ _ _ Ha).
      destruct (only_decodes_counts a Hda) as (_ & _ & Hsleeps & _).
      change (Sleep (inject_Z 10)) with (Sleep 10).
      rewrite sleeps_of_sleep, Hsleeps. reflexivity.
  - intros Hset. destruct INTERVAL_SECONDS as [s|]; [|elim Hset; reflexivity].
    cbn [INTERVAL environ_get] in *. split; [|exact Hs].
    unfold turn, dht_read_metrics.
    destruct (read (reading_env r) (sensor x)) as [datum w']. reflexivity.
Qed.

(** X9 at a sensor whose transmission arrives during the first
    [sleep(INTERVAL)] and which is silent during the second read: that read
    times out, and the gauges are set to 23.4 and 80.2. *)
Lemma exported_metrics_witness :
  d_status
    (fst (read silent
            (sensor (state (turns (INTERVAL None) [late_round 10000]
                                  (main_start 20000 0 []))))))
    = DHT_TIMEOUT /\
  (TEMPERATURE
     (state (turn (INTERVAL None) silent_round
               (state (turns (INTERVAL None) [late_round 10000]
                             (main_start 20000 0 []))))),
   HUMIDITY
     (state (turn (INTERVAL None) silent_round
               (state (turns (INTERVAL None) [late_round 10000]
                             (main_start 20000 0 []))))))
    = (117 # 5, 401 # 5).
Proof.
  split; [vm_compute; reflexivity|].
  etransitivity;
    [exact (proj1 (exported_metrics None 20000 0 [] [late_round 10000]
                     silent_round
                     (state (turns (INTERVAL None) [late_round 10000]
                                   (main_start 20000 0 [])))
                     eq_refl))|].
  vm_compute. reflexivity.
Defined.
